(** * MonopolyBot (dice4.py): the coordination core

    A shallow embedding of the three mechanisms of [MonopolyBot]:
    the [!go] rendezvous ([handle_go_command], [on_privmsg],
    [handle_stopgo], [_go_timeout], [_go_complete], [_reset_go_state]),
    the ImageMagick work queue ([process_queue]) and the reconnect loop
    ([_reconnect_loop]).

    Conventions.
    - A handler of the bot runs from entry to exit without another
      handler in between; a run of the bot is a sequence of handler
      calls. The timer thread holds no lock: in [Rendezvous.run] its
      call of [_go_timeout] falls between two handler calls, and
      [Threads.on_privmsg] has the calls that fall inside [on_privmsg],
      at its calls of [privmsg].
    - [connection.privmsg] returns and is recorded in a log of sent
      messages.
    - Text is a string of code points below 256 (the 8-bit characters
      of [string] read as Latin-1), a subset of Python's [str]. *)

From Stdlib Require Import ZArith NArith Ascii String List Lia.
From Stdlib Require Import DecimalString.
From stdpp Require Import gmap strings list fin_maps.

Local Open Scope string_scope.

(** ** Python's text operations on code points below 256 *)

Module Text.

Definition code (c : ascii) : N := N_of_ascii c.

(** [c.isdecimal()]: the characters [int] reads as a decimal digit. *)
Definition isdecimal_char (c : ascii) : bool :=
  ((48 <=? code c) && (code c <=? 57))%N.

(** [c.isdigit()]: the decimal digits and the superscript digits
    U+00B2, U+00B3 and U+00B9. *)
Definition isdigit_char (c : ascii) : bool :=
  isdecimal_char c
  || (code c =? 178)%N || (code c =? 179)%N || (code c =? 185)%N.

(** [c.isspace()]. *)
Definition isspace_char (c : ascii) : bool :=
  ((9 <=? code c) && (code c <=? 13))%N
  || ((28 <=? code c) && (code c <=? 32))%N
  || (code c =? 133)%N || (code c =? 160)%N.

(** [c.lower()]: A-Z, and U+00C0..U+00DE except the multiplication
    sign U+00D7, move up by 32. *)
Definition lower_char (c : ascii) : ascii :=
  if (((65 <=? code c) && (code c <=? 90))
      || ((192 <=? code c) && (code c <=? 222) && negb (code c =? 215)))%N
  then ascii_of_N (code c + 32)
  else c.

Fixpoint all_chars (p : ascii -> bool) (s : string) : bool :=
  match s with
  | EmptyString => true
  | String c r => p c && all_chars p r
  end.

(** [s.isdigit()]: at least one character, and all of them digits. *)
Definition isdigit (s : string) : bool :=
  match s with
  | EmptyString => false
  | String _ _ => all_chars isdigit_char s
  end.

Fixpoint lower (s : string) : string :=
  match s with
  | EmptyString => EmptyString
  | String c r => String (lower_char c) (lower r)
  end.

Fixpoint lstrip (s : string) : string :=
  match s with
  | EmptyString => EmptyString
  | String c r => if isspace_char c then lstrip r else s
  end.

Fixpoint rstrip (s : string) : string :=
  match s with
  | EmptyString => EmptyString
  | String c r =>
      match rstrip r with
      | EmptyString => if isspace_char c then EmptyString else String c EmptyString
      | r' => String c r'
      end
  end.

Definition strip (s : string) : string := rstrip (lstrip s).

Definition digit_value (c : ascii) : Z := Z.of_N (code c) - 48.

Fixpoint int_from (acc : Z) (s : string) : option Z :=
  match s with
  | EmptyString => Some acc
  | String c r =>
      if isdecimal_char c then int_from (10 * acc + digit_value c) r
      else None
  end.

(** [int(s)] for a string [s] of digit characters, which is what both
    call sites pass ([message.isdigit()] holds, or the text matched
    [\d+]): the value in base 10 when every character is a decimal
    digit, and [None] for the [ValueError] raised otherwise. *)
Definition int (s : string) : option Z :=
  match s with
  | EmptyString => None
  | String _ _ => int_from 0 s
  end.

(** [s.isascii()]. *)
Definition isascii (s : string) : bool :=
  all_chars (fun c => (code c <? 128)%N) s.

(** [str(n)] for an integer. *)
Definition str (n : Z) : string := NilZero.string_of_int (Z.to_int n).

(** [sep.join(l)]. *)
Definition join (sep : string) (l : list string) : string :=
  String.concat sep l.

End Text.

(** ** The [!go] rendezvous *)

Module Rendezvous.

Import Text.

(** [match.group(1)] of [r"!go([1-4])(?:\s+(\d+))?"]: one of the four
    characters 1 to 4. *)
Inductive GoNum := G1 | G2 | G3 | G4.

Definition go_num_str (g : GoNum) : string :=
  match g with G1 => "1" | G2 => "2" | G3 => "3" | G4 => "4" end.

(** The match object handed to [handle_go_command]: [group(1)] and
    [group(2)], the latter [None] when the timeout was left out. *)
Record Match := { group1 : GoNum; group2 : option string }.

(** The event handed to [on_privmsg]: [event.source.nick] and
    [event.arguments[0]]. *)
Record Event := { source_nick : string; arguments0 : string }.

Definition channel : string := "##rento".

(** [self.go_input_users]. *)
Definition go_input_users : list string := ["player1bot"; "player2bot"].

(** The [!go] fields of the bot. [go_lock] is [true] while the lock is
    held; [go_timer] is [Some t] while a timer of [t] seconds is
    pending, [None] when the field is [None]. *)
Record Bot := {
  go_lock : bool;
  go_active : option GoNum;
  go_timeout : Z;
  go_numbers : gmap string Z;
  go_timer : option Z
}.

(** The state [__init__] leaves. *)
Definition init : Bot :=
  {| go_lock := false; go_active := None; go_timeout := 60;
     go_numbers := ∅; go_timer := None |}.

(** One constructor per [privmsg] call site of the rendezvous; [wire]
    below gives the target and the text sent. *)
Inductive notice :=
| Started (g : GoNum) (timeout : Z)
| AlreadyActive (g : GoNum)
| NoActive
| Stopped (a : option GoNum)
| TimedOut (a : option GoNum) (missing : list string)
| Resulted (a : option GoNum) (nums : list Z)
| Received (sender : string) (num : Z) (a : option GoNum)
| OutOfRange (sender : string)
| NotNumber (sender : string).

(** [f"{self.go_active}"]. *)
Definition fmt_active (a : option GoNum) : string :=
  match a with Some g => go_num_str g | None => "None" end.

Definition wire (n : notice) : string * string :=
  match n with
  | Started g t =>
      (channel, "!go" ++ go_num_str g ++ " started. Waiting for numbers from "
                ++ join ", " go_input_users ++ ". Timeout: " ++ str t ++ "s")
  | AlreadyActive g =>
      (channel, "cannot start !go" ++ go_num_str g
                ++ ", another go command is active.")
  | NoActive => (channel, "No active !go command to stop.")
  | Stopped a => (channel, "!go" ++ fmt_active a ++ " stopped manually.")
  | TimedOut a missing =>
      (channel,
       match missing with
       | [] => "!go" ++ fmt_active a ++ " timed out."
       | _ => "!go" ++ fmt_active a ++ " timed out. Missing numbers from: "
              ++ join ", " missing
       end)
  | Resulted a nums =>
      (channel, "go" ++ fmt_active a ++ " resulted in "
                ++ join " + " (map str nums))
  | Received sender num a =>
      (sender, "number " ++ str num ++ " received for !go" ++ fmt_active a ++ ".")
  | OutOfRange sender => (sender, "number must be 0-7.")
  | NotNumber sender => (sender, "send a number 0-7.")
  end.

Inductive exn := ValueError.

(** What a handler call leaves: the bot's fields, the messages sent in
    order, and the exception that ended the call, if one did. *)
Record result := { final : Bot; sent : list notice; raised : option exn }.

Definition returns (s : Bot) (out : list notice) : result :=
  {| final := s; sent := out; raised := None |}.

Definition _reset_go_state (s : Bot) : Bot :=
  {| go_lock := if go_lock s then false else go_lock s;
     go_active := None;
     go_timeout := go_timeout s;
     go_numbers := ∅;
     go_timer := None |}.

(** [u not in self.go_numbers] for each expected user, in order. *)
Definition missing_users (s : Bot) : list string :=
  filter (fun u => go_numbers s !! u = None) go_input_users.

Definition _go_timeout (s : Bot) : result :=
  returns (_reset_go_state s) [TimedOut (go_active s) (missing_users s)].

(** [self.go_numbers.get(u, 0)] for each expected user, in order. *)
Definition reported_numbers (m : gmap string Z) : list Z :=
  map (fun u => default 0%Z (m !! u)) go_input_users.

Definition _go_complete (s : Bot) : result :=
  returns (_reset_go_state s)
          [Resulted (go_active s) (reported_numbers (go_numbers s))].

Definition handle_stopgo (s : Bot) : result :=
  match go_active s with
  | None => returns s [NoActive]
  | Some _ =>
      let s1 := {| go_lock := go_lock s; go_active := go_active s;
                   go_timeout := go_timeout s; go_numbers := go_numbers s;
                   go_timer := None |} in
      returns (_reset_go_state s1) [Stopped (go_active s)]
  end.

(** [int(timeout_str) if timeout_str else 60], with 60 on [ValueError]. *)
Definition parse_timeout (timeout_str : option string) : Z :=
  match timeout_str with
  | None | Some EmptyString => 60
  | Some t => match int t with Some z => z | None => 60 end
  end.

Definition handle_go_command (m : Match) (s : Bot) : result :=
  let go_num := group1 m in
  let timeout := parse_timeout (group2 m) in
  if go_lock s then returns s [AlreadyActive go_num]
  else
    returns {| go_lock := true; go_active := Some go_num;
               go_timeout := timeout; go_numbers := ∅;
               go_timer := Some timeout |}
            [Started go_num timeout].

(** The truth value of [self.go_active]: [None] is false, a tag is a
    string of one character and true. *)
Definition active (s : Bot) : bool :=
  match go_active s with Some _ => true | None => false end.

Definition in_users (sender : string) : bool :=
  bool_decide (sender ∈ go_input_users).

Definition set_numbers (s : Bot) (m : gmap string Z) : Bot :=
  {| go_lock := go_lock s; go_active := go_active s;
     go_timeout := go_timeout s; go_numbers := m; go_timer := go_timer s |}.

Definition on_privmsg (ev : Event) (s : Bot) : result :=
  let sender := lower (source_nick ev) in
  let message := lower (strip (arguments0 ev)) in
  if active s && in_users sender then
    if isdigit message then
      match int message with
      | None => {| final := s; sent := []; raised := Some ValueError |}
      | Some num =>
          if ((0 <=? num) && (num <=? 7))%Z then
            let s1 := set_numbers s (<[sender := num]> (go_numbers s)) in
            let ack := Received sender num (go_active s) in
            if (size (go_numbers s1) =? length go_input_users)%nat then
              let r := _go_complete s1 in
              {| final := final r; sent := ack :: sent r; raised := raised r |}
            else returns s1 [ack]
          else returns s [OutOfRange sender]
      end
    else returns s [NotNumber sender]
  else returns s [].

(** What drives the rendezvous: the three handlers [on_pubmsg] and the
    reactor dispatch to, and the timer thread calling [_go_timeout]. *)
Inductive event :=
| Go (m : Match)
| StopGo
| Privmsg (ev : Event)
| Deadline.

Definition handle (e : event) (s : Bot) : result :=
  match e with
  | Go m => handle_go_command m s
  | StopGo => handle_stopgo s
  | Privmsg ev => on_privmsg ev s
  | Deadline => _go_timeout s
  end.

(** A run: the fields after the calls and everything sent, in order.
    The fields an exception leaves are those the next call finds. Each
    handler is run whole here, so that the timer's call, [Deadline],
    falls between two of them; the calls of the timer that fall inside
    [on_privmsg] are in [Threads.on_privmsg]. *)
Fixpoint run (evs : list event) (s : Bot) : Bot * list notice :=
  match evs with
  | [] => (s, [])
  | e :: rest =>
      let r := handle e s in
      let '(s', out) := run rest (final r) in
      (s', (sent r ++ out)%list)
  end.

(** The timer is pending. *)
Definition armed (s : Bot) : bool :=
  match go_timer s with Some _ => true | None => false end.

(** The broadcasts that end a session. *)
Definition is_terminal (n : notice) : bool :=
  match n with
  | Stopped _ | TimedOut _ _ | Resulted _ _ => true
  | _ => false
  end.

Definition count_terminal (log : list notice) : nat :=
  length (List.filter is_terminal log).

(** The keys of [go_numbers] are expected users and its values lie in
    0..7. *)
Definition collected_ok (s : Bot) : Prop :=
  forall u v, go_numbers s !! u = Some v ->
    u ∈ go_input_users /\ (0 <= v <= 7)%Z.

(** What every handler keeps: the lock is held exactly while a tag is
    set, a pending timer belongs to a set tag, and [collected_ok]. *)
Definition consistent (s : Bot) : Prop :=
  go_lock s = active s
  /\ (armed s = true -> active s = true)
  /\ collected_ok s.

End Rendezvous.

(** ** The ImageMagick queue *)

Module UpdateQueue.

Import Text.

(** A queued pair [(coord, color)]; [("REPLACE_MAP", temp_path)] asks
    for the map file to be replaced. *)
Record Task := { coord : string; color : string }.

Definition path : string := "map.webp".

Definition quote : string := String (ascii_of_N 34) EmptyString.

(** The shell command of a draw task. *)
Definition mogrify_command (t : Task) : string :=
  "mogrify -fill " ++ color t ++ " -stroke black -strokewidth 3 -draw "
  ++ quote ++ "circle " ++ coord t ++ quote ++ " " ++ quote ++ path ++ quote.

(** What one pass of the worker meets outside the bot: whether
    [shutil.move] raises, whether [subprocess.run] raises, and whether
    [self.connection and self.connection.is_connected()] holds. *)
Record Env := { move_raises : bool; run_raises : bool; connected : bool }.

(** The calls a pass makes, in order. *)
Inductive effect :=
| Move (src dst : string)
| Mogrify (command : string)
| Up
| PrintError
| TaskDone.

Inductive outcome := Normal | Raise.

(** The [try] block: the calls made, and whether the last one raised. *)
Definition try_block (e : Env) (t : Task) : list effect * outcome :=
  if String.eqb (coord t) "REPLACE_MAP" then
    ([Move (color t) path], if move_raises e then Raise else Normal)
  else if run_raises e then ([Mogrify (mogrify_command t)], Raise)
  else if connected e then ([Mogrify (mogrify_command t); Up], Normal)
  else ([Mogrify (mogrify_command t)], Normal).

(** The loop body on the task [get] returned: the [try] block, then
    [except Exception], which prints and ends the exception, then
    [finally]. The outcome is how control leaves the body. *)
Definition pass (e : Env) (t : Task) : list effect * outcome :=
  let '(calls, o) := try_block e t in
  match o with
  | Raise => ((calls ++ [PrintError; TaskDone])%list, Normal)
  | Normal => ((calls ++ [TaskDone])%list, Normal)
  end.

(** [mogrify_queue] and the worker's history: each task it took, with
    the calls of its pass. *)
Record Sys := { queue : list Task; trace : list (Task * list effect) }.

Definition start : Sys := {| queue := []; trace := [] |}.

(** [self.mogrify_queue.put(t)]. *)
Definition put (t : Task) (s : Sys) : Sys :=
  {| queue := (queue s ++ [t])%list; trace := trace s |}.

(** One turn of [while True] in [process_queue]: [get] takes the oldest
    task, or waits on an empty queue. [None] is the loop left by an
    exception out of its body, which ends the worker's thread. *)
Definition work (e : Env) (s : Sys) : option Sys :=
  match queue s with
  | [] => Some s
  | t :: rest =>
      match pass e t with
      | (calls, Normal) =>
          Some {| queue := rest; trace := (trace s ++ [(t, calls)])%list |}
      | (_, Raise) => None
      end
  end.

(** The callers' [put]s and the worker's turns, in any order. *)
Inductive op := Put (t : Task) | Work (e : Env).

Fixpoint exec (ops : list op) (s : Sys) : option Sys :=
  match ops with
  | [] => Some s
  | Put t :: rest => exec rest (put t s)
  | Work e :: rest =>
      match work e s with
      | Some s' => exec rest s'
      | None => None
      end
  end.

(** The tasks put, in the order of the calls. *)
Fixpoint puts (ops : list op) : list Task :=
  match ops with
  | [] => []
  | Put t :: rest => t :: puts rest
  | Work _ :: rest => puts rest
  end.

(** Every call the worker made, in order. *)
Definition effect_log (s : Sys) : list effect := concat (map snd (trace s)).

(** The call a task asks for, the first of its [try] block: the move
    of the new map, or the drawing command. *)
Definition asked_call (t : Task) : effect :=
  if String.eqb (coord t) "REPLACE_MAP" then Move (color t) path
  else Mogrify (mogrify_command t).

End UpdateQueue.

(** ** The reconnect loop *)

Module Reconnect.

(** How the [try] block of one pass ends. *)
Inductive attempt_outcome := Joined | ConnectRaises | JoinRaises.

(** What one pass meets: [self.connection and
    self.connection.is_connected()], and the end of its [try] block. *)
Record Pass := { live : bool; outcome : attempt_outcome }.

Inductive entry := Attempt (n : Z) | Sleep (seconds : Z).

Record State := { reconnect_active : bool; log : list entry }.

Inductive exit := AlreadyConnected | Connected.

(** The loop has returned, or is about to begin the pass numbered
    [attempt]. *)
Inductive status := Exited (why : exit) | Running (attempt : Z).

Definition wait_time (base_wait attempt : Z) : Z :=
  Z.min (base_wait * attempt) 300.

Definition clear (s : State) : State :=
  {| reconnect_active := false; log := log s |}.

Definition record (es : list entry) (s : State) : State :=
  {| reconnect_active := reconnect_active s; log := (log s ++ es)%list |}.

(** [while True] run for the passes listed. *)
Fixpoint loop (base_wait attempt : Z) (env : list Pass) (s : State)
  : State * status :=
  match env with
  | [] => (s, Running attempt)
  | p :: rest =>
      if live p then (clear s, Exited AlreadyConnected)
      else
        match outcome p with
        | Joined => (clear (record [Attempt attempt] s), Exited Connected)
        | ConnectRaises | JoinRaises =>
            loop base_wait (attempt + 1) rest
                 (record [Attempt attempt;
                          Sleep (wait_time base_wait attempt)] s)
        end
  end.

Definition _reconnect_loop (base_wait : Z) (env : list Pass) (s : State)
  : State * status :=
  loop base_wait 1 env s.

(** [on_disconnect]: the state, and whether the loop's thread was
    started. *)
Definition on_disconnect (s : State) : State * bool :=
  if reconnect_active s then (s, false)
  else ({| reconnect_active := true; log := log s |}, true).

(** The pass neither found the connection live nor joined. *)
Definition failed (p : Pass) : bool :=
  negb (live p)
  && match outcome p with Joined => false | _ => true end.

Fixpoint failures (env : list Pass) : list Pass :=
  match env with
  | p :: rest => if failed p then p :: failures rest else []
  | [] => []
  end.

(** The log of [n] failed passes numbered from [k]. *)
Fixpoint failure_log (base_wait k : Z) (n : nat) : list entry :=
  match n with
  | O => []
  | S n' => Attempt k :: Sleep (wait_time base_wait k)
            :: failure_log base_wait (k + 1) n'
  end.

End Reconnect.

(** ** The timer thread inside [on_privmsg] *)

Module Threads.

Import Text Rendezvous.

(** Whether the timer thread runs [_go_timeout] while [on_privmsg] is
    in its call of [privmsg] for the acknowledgment, and while
    [_go_complete] is in its call of [privmsg] for the result. No lock
    is held at either call, and the timer is cancelled only later, by
    [_reset_go_state]. *)
Record Calls := { in_ack : bool; in_result : bool }.

(** The timer thread at such a call: it runs [_go_timeout] if it is to
    run now and the timer is still pending. The fields it leaves, and
    what it sends. *)
Definition callback (now : bool) (s : Bot) : Bot * list notice :=
  if now && armed s then (final (_go_timeout s), sent (_go_timeout s))
  else (s, []).

(** [on_privmsg] with the timer thread: the statements of the handler
    in their order, each reading the fields as they are when it runs. *)
Definition on_privmsg (c : Calls) (ev : Event) (s : Bot) : result :=
  let sender := lower (source_nick ev) in
  let message := lower (strip (arguments0 ev)) in
  if active s && in_users sender then
    if isdigit message then
      match int message with
      | None => {| final := s; sent := []; raised := Some ValueError |}
      | Some num =>
          if ((0 <=? num) && (num <=? 7))%Z then
            let s1 := set_numbers s (<[sender := num]> (go_numbers s)) in
            let ack := Received sender num (go_active s1) in
            let '(s2, out2) := callback (in_ack c) s1 in
            if (size (go_numbers s2) =? length go_input_users)%nat then
              let res :=
                Resulted (go_active s2) (reported_numbers (go_numbers s2)) in
              let '(s3, out3) := callback (in_result c) s2 in
              {| final := _reset_go_state s3;
                 sent := (ack :: out2 ++ res :: out3)%list;
                 raised := None |}
            else {| final := s2; sent := ack :: out2; raised := None |}
          else returns s [OutOfRange sender]
      end
    else returns s [NotNumber sender]
  else returns s [].

End Threads.

(** ** Public messages: [on_pubmsg], the dice and the update commands *)

Module Router.

Import Text Rendezvous UpdateQueue.

(** The table [coordinates]. *)
Definition coordinates : gmap Z string :=
  list_to_map
    [(1, "1225,1140 1235,1150"); (3, "990,1140 1000,1150");
     (4, "870,1136 880,1146"); (5, "745,1136 755,1146");
     (6, "620,1140 630,1150"); (8, "380,1140 390,1150");
     (9, "260,1140 270,1150"); (11, "212,1094 222,1104");
     (12, "213,985 223,995"); (13, "217,872 227,882");
     (14, "220,760 230,770"); (15, "223,647 233,657");
     (16, "226,534 236,544"); (17, "229,430 239,440");
     (19, "233,225 243,235"); (21, "290,192 300,202");
     (22, "400,192 410,202"); (24, "625,192 635,202");
     (25, "745,192 755,202"); (26, "860,192 870,202");
     (27, "973,192 983,202"); (28, "1090,193 1100,203");
     (29, "1205,193 1215,203"); (31, "1245,225 1255,235");
     (33, "1250,430 1260,440"); (34, "1255,535 1265,545");
     (35, "1260,645 1270,655"); (37, "1267,865 1277,875");
     (38, "1273,985 1283,995"); (39, "1275,1095 1285,1105")]%Z.

Definition unmortgaged_colors : gmap string string :=
  list_to_map [("p1", "red"); ("p2", "blue"); ("p3", "orange");
               ("p4", "purple")].

Definition mortgaged_colors : gmap string string :=
  list_to_map [("p1", "black"); ("p2", "grey"); ("p3", "white");
               ("p4", "lightpink")].

(** [self.num_players], as [__main__] and the default set it. *)
Definition num_players : Z := 4.

(** [s.startswith(p)]. *)
Fixpoint startswith (p s : string) : bool :=
  match p, s with
  | EmptyString, _ => true
  | String a p', String b s' => Ascii.eqb a b && startswith p' s'
  | String _ _, EmptyString => false
  end.

(** What follows the prefix [p] in [s], when [s] starts with [p]. *)
Fixpoint after (p s : string) : option string :=
  match p, s with
  | EmptyString, _ => Some s
  | String a p', String b s' => if Ascii.eqb a b then after p' s' else None
  | String _ _, EmptyString => None
  end.

(** The longest run of characters satisfying [f] that [s] begins with,
    and the rest of [s]. *)
Fixpoint span (f : ascii -> bool) (s : string) : string * string :=
  match s with
  | EmptyString => (EmptyString, EmptyString)
  | String c r =>
      if f c then let '(a, b) := span f r in (String c a, b)
      else (EmptyString, s)
  end.

(** A token begins at the head of [s]. *)
Definition at_token (s : string) : bool :=
  match s with
  | String c _ => negb (isspace_char c)
  | EmptyString => false
  end.

(** [s.split()]: the runs of characters between white space. *)
Fixpoint split (s : string) : list string :=
  match s with
  | EmptyString => []
  | String c r =>
      if isspace_char c then split r
      else if at_token r then
        match split r with
        | t :: ts => String c t :: ts
        | [] => [String c EmptyString]
        end
      else String c EmptyString :: split r
  end.

(** The digits of an [int] literal after its sign: decimal digits, with
    single underscores between digits. *)
Fixpoint int_body (acc : Z) (after_digit : bool) (s : string) : option Z :=
  match s with
  | EmptyString => if after_digit then Some acc else None
  | String c r =>
      if isdecimal_char c then int_body (10 * acc + digit_value c) true r
      else if (code c =? 95)%N && after_digit then int_body acc false r
      else None
  end.

(** The white space [int] drops around a literal: tab to carriage
    return, the space, U+0085 and U+00A0. The separators U+001C to
    U+001F, white space for [strip] and [split], are none for [int]. *)
Definition int_space_char (c : ascii) : bool :=
  ((9 <=? code c) && (code c <=? 13))%N
  || (code c =? 32)%N || (code c =? 133)%N || (code c =? 160)%N.

Fixpoint lstrip_by (f : ascii -> bool) (s : string) : string :=
  match s with
  | EmptyString => EmptyString
  | String c r => if f c then lstrip_by f r else s
  end.

Fixpoint rstrip_by (f : ascii -> bool) (s : string) : string :=
  match s with
  | EmptyString => EmptyString
  | String c r =>
      match rstrip_by f r with
      | EmptyString => if f c then EmptyString else String c EmptyString
      | r' => String c r'
      end
  end.

(** [int(s)] for any text: white space around it is dropped, a sign may
    lead; [None] stands for [ValueError]. The interpreter's limit on
    the number of digits lies beyond the length of an IRC line and is
    left out. *)
Definition int_literal (s : string) : option Z :=
  match rstrip_by int_space_char (lstrip_by int_space_char s) with
  | String c r =>
      if (code c =? 43)%N then int_body 0 false r
      else if (code c =? 45)%N then Z.opp <$> int_body 0 false r
      else int_body 0 false (String c r)
  | EmptyString => None
  end.

(** The group of [[1-4]]: the character as a number. *)
Definition one_to_four (c : ascii) : option Z :=
  if ((49 <=? code c) && (code c <=? 52))%N then Some (digit_value c)
  else None.

Definition go_num_of (c : ascii) : option GoNum :=
  match code c with
  | 49%N => Some G1 | 50%N => Some G2 | 51%N => Some G3 | 52%N => Some G4
  | _ => None
  end.

(** [re.match(r"!go([1-4])(?:\s+(\d+))?", message)]. White space and
    digits share no character, so the optional part matches exactly when
    a run of white space followed by a digit comes next, and then takes
    all the digits there are. *)
Definition match_go (message : string) : option Match :=
  match after "!go" message with
  | Some (String c r) =>
      match go_num_of c with
      | Some g =>
          let '(ws, r1) := span isspace_char r in
          let '(ds, _) := span isdecimal_char r1 in
          Some {| group1 := g;
                  group2 := match ws, ds with
                            | String _ _, String _ _ => Some ds
                            | _, _ => None
                            end |}
      | None => None
      end
  | _ => None
  end.

(** [re.match(rf"!{dice_name}-p([1-{self.num_players}])", message)],
    giving [int(m.group(1))]. *)
Definition match_dice (dice_name message : string) : option Z :=
  match after ("!" ++ dice_name ++ "-p") message with
  | Some (String c _) => one_to_four c
  | _ => None
  end.

(** What a public message meets outside the bot: the text of the
    exception [shutil.copyfile] raises, if it does, and the two draws of
    [random.choice], each the index it picks. *)
Record Env := { copy_raises : option string; pick1 : nat; pick2 : nat }.

(** [random.choice(pool)] picking index [i]. *)
Definition choice (i : nat) (pool : list Z) : Z :=
  nth (i mod length pool) pool 0%Z.

(** The bot: the [!go] fields, the queue with its worker, and
    [dice_rolls]. *)
Record World := {
  bot : Bot;
  sys : Sys;
  dice_rolls : gmap Z (Z * Z)
}.

Definition init_world : World :=
  {| bot := init; sys := start; dice_rolls := ∅ |}.

(** What the bot sends to the channel or to a user. *)
Inductive message :=
| Go (n : notice)
| FreshQueued
| FreshError (e : string)
| Rolled (dice_name : string) (player_num first second : Z)
| InvalidPlayer.

Definition wire_message (m : message) : string * string :=
  match m with
  | Go n => wire n
  | FreshQueued => (channel, "Fresh map queued from cb2.webp.")
  | FreshError e => (channel, "Error queuing fresh map: " ++ e)
  | Rolled dice_name p first second =>
      (channel, dice_name ++ " rolled by p" ++ str p ++ " " ++ str first
                ++ " + " ++ str second)
  | InvalidPlayer =>
      (channel, "Invalid player number. Must be 1-" ++ str num_players ++ ".")
  end.

Definition with_bot (w : World) (r : result) : World * list message :=
  ({| bot := final r; sys := sys w; dice_rolls := dice_rolls w |},
   map Go (sent r)).

Definition enqueue (t : Task) (w : World) : World :=
  {| bot := bot w; sys := put t (sys w); dice_rolls := dice_rolls w |}.

Definition roll_dice (e : Env) (player_num : Z) (pool1 pool2 : list Z)
    (dice_name : string) (w : World) : World * list message :=
  if ((1 <=? player_num) && (player_num <=? num_players))%Z then
    let first := choice (pick1 e) pool1 in
    let second := choice (pick2 e) pool2 in
    ({| bot := bot w; sys := sys w;
        dice_rolls := <[player_num := (first, second)]> (dice_rolls w) |},
     [Rolled dice_name player_num first second])
  else (w, [InvalidPlayer]).

Definition handle_dice1 (e : Env) (player_num : Z) (w : World) :=
  roll_dice e player_num [1; 1; 2; 2; 3; 3]%Z [1; 1; 2; 2; 3; 3]%Z "dice1" w.

Definition handle_dice2 (e : Env) (player_num : Z) (w : World) :=
  roll_dice e player_num [1; 1; 2; 2; 3; 3]%Z [4; 4; 5; 5; 6; 6]%Z "dice2" w.

Definition handle_dice3 (e : Env) (player_num : Z) (w : World) :=
  roll_dice e player_num [4; 4; 5; 5; 6; 6]%Z [4; 4; 5; 5; 6; 6]%Z "dice3" w.

Definition handle_dice4 (e : Env) (player_num : Z) (w : World) :=
  roll_dice e player_num [1; 2; 3; 4; 5; 6]%Z [1; 2; 3; 4; 5; 6]%Z "dice4" w.

(** [dice_commands] with the handler [getattr] finds for each name. *)
Definition dice_commands
  : list (string * (Env -> Z -> World -> World * list message)) :=
  [("dice1", handle_dice1); ("dice2", handle_dice2);
   ("dice3", handle_dice3); ("dice4", handle_dice4)].

(** The [for] loop over [dice_commands]: the first name that matches
    is handled; [None] when none does. *)
Fixpoint dice_loop
    (cmds : list (string * (Env -> Z -> World -> World * list message)))
    (e : Env) (msg : string) (w : World) : option (World * list message) :=
  match cmds with
  | [] => None
  | (dice_name, handler) :: rest =>
      match match_dice dice_name msg with
      | Some player_num => Some (handler e player_num w)
      | None => dice_loop rest e msg w
      end
  end.

Definition temp_path : string := "map_temp.webp".

(** The update commands, from [msg_split = message.split()] on. *)
Definition update_command (msg : string) (w : World) : World :=
  match split msg with
  | first_word :: player :: _ :: fourth :: _ =>
      match int_literal fourth with
      | None => w
      | Some number =>
          if negb (bool_decide
                     (first_word ∈ ["auction-folded"; "unmortgaged";
                                    "mortgaged"]))
          then w
          else
            match coordinates !! number with
            | None => w
            | Some coord =>
                let color :=
                  if bool_decide
                       (first_word ∈ ["auction-folded"; "unmortgaged"])
                  then default "red" (unmortgaged_colors !! player)
                  else default "red" (mortgaged_colors !! player) in
                enqueue {| coord := coord; color := color |} w
            end
      end
  | _ => w
  end.

Definition on_pubmsg (e : Env) (arguments0 : string) (w : World)
  : World * list message :=
  let msg := lower (strip arguments0) in
  match match_go msg with
  | Some m => with_bot w (handle_go_command m (bot w))
  | None =>
      if startswith "!stopgo" msg then with_bot w (handle_stopgo (bot w))
      else if startswith "!freshmap" msg then
        match copy_raises e with
        | None =>
            (enqueue {| coord := "REPLACE_MAP"; color := temp_path |} w,
             [FreshQueued])
        | Some err => (w, [FreshError err])
        end
      else
        match dice_loop dice_commands e msg w with
        | Some r => r
        | None => (update_command msg w, [])
        end
  end.

(** What happens to the bot: a public message, a private message, the
    timer calling [_go_timeout], a turn of the queue's worker. *)
Inductive input :=
| Pub (e : Env) (arguments0 : string)
| Priv (ev : Event)
| Timer
| Turn (e : UpdateQueue.Env).

Definition step (i : input) (w : World) : World * list message :=
  match i with
  | Pub e a => on_pubmsg e a w
  | Priv ev => with_bot w (on_privmsg ev (bot w))
  | Timer => with_bot w (_go_timeout (bot w))
  | Turn e =>
      match work e (sys w) with
      | Some s' => ({| bot := bot w; sys := s'; dice_rolls := dice_rolls w |}, [])
      | None => (w, [])
      end
  end.

Fixpoint run_world (ins : list input) (w : World) : World * list message :=
  match ins with
  | [] => (w, [])
  | i :: rest =>
      let '(w1, out1) := step i w in
      let '(w2, out2) := run_world rest w1 in
      (w2, (out1 ++ out2)%list)
  end.

(** The colours of the two tables. *)
Definition palette : list string :=
  ["red"; "blue"; "orange"; "purple"; "black"; "grey"; "white"; "lightpink"].

(** A task public messages may queue: the replacement of the map by
    the temporary copy, or a circle at a place of [coordinates] in a
    colour of the tables. *)
Definition task_ok (t : Task) : Prop :=
  t = {| coord := "REPLACE_MAP"; color := temp_path |}
  \/ (coord t <> "REPLACE_MAP"
      /\ (exists number, coordinates !! number = Some (coord t))
      /\ color t ∈ palette).

(** The tasks the worker has taken, then those still queued. *)
Definition tasks (w : World) : list Task :=
  (map fst (trace (sys w)) ++ queue (sys w))%list.

(** A call the worker may make: the move of the temporary copy onto
    the map, the drawing command of a circle at a place of
    [coordinates] in a colour of the tables, or one of the other
    three. *)
Definition effect_ok (c : effect) : Prop :=
  match c with
  | Move src dst => src = temp_path /\ dst = path
  | Mogrify cmd =>
      exists number place colour,
        coordinates !! number = Some place /\ colour ∈ palette
        /\ cmd = mogrify_command {| coord := place; color := colour |}
  | Up | PrintError | TaskDone => True
  end.

(** [s] begins with a decimal digit. *)
Definition decimal_head (s : string) : bool :=
  match s with
  | String c _ => isdecimal_char c
  | EmptyString => false
  end.

(** The calls of [task_done] among the calls [l]. *)
Definition done_count (l : list effect) : nat :=
  length (List.filter
            (fun c => match c with TaskDone => true | _ => false end) l).

End Router.

(** ** [on_disconnect] and the threads it starts *)

Module Supervisor.

Import Reconnect.

(** The flag and the log, with the pass counter of every thread that
    runs [_reconnect_loop]. *)
Record Sup := { state : State; threads : list Z }.

Definition init_sup : Sup :=
  {| state := {| reconnect_active := false; log := [] |}; threads := [] |}.

(** [Disconnect] is a call of [on_disconnect]; [Pass i p] is one pass
    of the loop in thread [i], meeting [p]. *)
Inductive sup_event := Disconnect | Pass (i : nat) (p : Reconnect.Pass).

Definition sup_step (ev : sup_event) (s : Sup) : Sup :=
  match ev with
  | Disconnect =>
      let '(st, started) := on_disconnect (state s) in
      {| state := st;
         threads := if started then (threads s ++ [1%Z])%list else threads s |}
  | Pass i p =>
      match threads s !! i with
      | None => s
      | Some k =>
          match loop 60 k [p] (state s) with
          | (st, Running k') =>
              {| state := st; threads := <[i := k']> (threads s) |}
          | (st, Exited _) =>
              {| state := st; threads := delete i (threads s) |}
          end
      end
  end.

Definition sup_run (evs : list sup_event) (s : Sup) : Sup :=
  fold_left (fun s ev => sup_step ev s) evs s.

End Supervisor.

(** * Properties *)

(** ** Text *)

Section TextFacts.

Import Text.

Example isdigit_5 : isdigit "5" = true.
Proof. reflexivity. Qed.

Example isdigit_plus5 : isdigit "+5" = false.
Proof. reflexivity. Qed.

Example isdigit_empty : isdigit "" = false.
Proof. reflexivity. Qed.

Example int_005 : int "005" = Some 5%Z.
Proof. reflexivity. Qed.

Example strip_lower : lower (strip "  Go 7 ") = "go 7".
Proof. reflexivity. Qed.

Example str_60 : str 60 = "60".
Proof. reflexivity. Qed.

(** The superscript two is a digit for [isdigit] and not one for [int]. *)
Example isdigit_superscript_two :
  isdigit (String (ascii_of_N 178) EmptyString) = true
  /\ int (String (ascii_of_N 178) EmptyString) = None.
Proof. split; reflexivity. Qed.

Lemma isdigit_char_ascii (c : ascii) :
  (code c <? 128)%N = true -> isdigit_char c = true ->
  isdecimal_char c = true.
Proof.
  unfold isdigit_char. intros Hc Hd. apply N.ltb_lt in Hc.
  destruct (isdecimal_char c); [reflexivity|]. simpl in Hd.
  repeat (apply orb_true_iff in Hd as [Hd|Hd]);
    apply N.eqb_eq in Hd; lia.
Qed.

Lemma int_from_decimal (s : string) (acc : Z) :
  all_chars isdecimal_char s = true -> (0 <= acc)%Z ->
  exists n, int_from acc s = Some n /\ (0 <= n)%Z.
Proof.
  revert acc. induction s as [|c r IH]; intros acc Hs Hacc; simpl in *.
  - by exists acc.
  - apply andb_true_iff in Hs as [Hc Hr]. rewrite Hc. apply IH; [exact Hr|].
    unfold isdecimal_char in Hc. apply andb_true_iff in Hc as [Hlo _].
    apply N.leb_le in Hlo. unfold digit_value. lia.
Qed.

(** On text of ASCII characters [int] reads whatever [isdigit]
    accepts. *)
Lemma isdigit_ascii_int (s : string) :
  isascii s = true -> isdigit s = true ->
  exists n, int s = Some n /\ (0 <= n)%Z.
Proof.
  intros Ha Hd. destruct s as [|c r]; [discriminate|].
  unfold int, isdigit in *. apply int_from_decimal; [|lia].
  revert Ha Hd. generalize (String c r). clear c r.
  induction s as [|c r IH]; simpl; [reflexivity|]. intros Ha Hd.
  apply andb_true_iff in Ha as [Hc Ha]. apply andb_true_iff in Hd as [Hdc Hd].
  rewrite (isdigit_char_ascii c Hc Hdc). simpl. by apply IH.
Qed.

End TextFacts.

(** ** The rendezvous *)

Section RendezvousFacts.

Import Text Rendezvous.

Lemma run_cons (e : event) (rest : list event) (s : Bot) :
  run (e :: rest) s
  = ((run rest (final (handle e s))).1,
     (sent (handle e s) ++ (run rest (final (handle e s))).2)%list).
Proof. simpl. destruct (run rest (final (handle e s))); reflexivity. Qed.

Lemma init_consistent : consistent init.
Proof.
  repeat split; try discriminate;
    unfold init in *; simpl in *; rewrite lookup_empty in H; discriminate.
Qed.

Lemma reset_consistent (s : Bot) : consistent (_reset_go_state s).
Proof.
  unfold _reset_go_state, consistent, collected_ok, active, armed; simpl.
  split; [destruct (go_lock s); reflexivity|].
  split; [discriminate|].
  intros u v H. rewrite lookup_empty in H. discriminate.
Qed.

Lemma in_users_elem (u : string) : in_users u = true -> u ∈ go_input_users.
Proof. unfold in_users. intros H. by apply bool_decide_eq_true in H. Qed.

Lemma collected_ok_insert (s : Bot) (u : string) (n : Z) :
  collected_ok s -> u ∈ go_input_users -> (0 <= n <= 7)%Z ->
  collected_ok (set_numbers s (<[u := n]> (go_numbers s))).
Proof.
  intros Hc Hu Hn u' v. unfold set_numbers; simpl.
  destruct (decide (u = u')) as [<-|Hne].
  - rewrite lookup_insert_eq. intros [= <-]. by split.
  - rewrite lookup_insert_ne by exact Hne. apply Hc.
Qed.

Lemma on_privmsg_consistent (ev : Event) (s : Bot) :
  consistent s -> consistent (final (on_privmsg ev s)).
Proof.
  intros Hs. unfold on_privmsg.
  destruct (active s && in_users (lower (source_nick ev))) eqn:Hg; [|exact Hs].
  apply andb_true_iff in Hg as [Ha Hu].
  destruct (isdigit _); [|exact Hs].
  destruct (int _) as [num|]; [|exact Hs].
  destruct ((0 <=? num)%Z && (num <=? 7)%Z) eqn:Hr; [|exact Hs].
  apply andb_true_iff in Hr as [H0 H7].
  apply Z.leb_le in H0. apply Z.leb_le in H7.
  destruct (size _ =? length go_input_users)%nat; simpl.
  - apply reset_consistent.
  - destruct Hs as (Hl & Ht & Hc).
    split; [exact Hl|]. split; [exact Ht|].
    apply collected_ok_insert; auto using in_users_elem.
Qed.

Lemma handle_consistent (e : event) (s : Bot) :
  consistent s -> consistent (final (handle e s)).
Proof.
  intros Hs. destruct e as [m| |ev|]; simpl.
  - unfold handle_go_command. destruct (go_lock s); [exact Hs|]. simpl.
    unfold consistent, collected_ok, active, armed; simpl.
    split; [reflexivity|]. split; [reflexivity|].
    intros u v H. rewrite lookup_empty in H. discriminate.
  - unfold handle_stopgo. destruct (go_active s); [|exact Hs].
    apply reset_consistent.
  - by apply on_privmsg_consistent.
  - apply reset_consistent.
Qed.

Lemma run_consistent (evs : list event) (s : Bot) :
  consistent s -> consistent (run evs s).1.
Proof.
  revert s. induction evs as [|e rest IH]; intros s Hs; [exact Hs|].
  rewrite run_cons. simpl. apply IH. by apply handle_consistent.
Qed.

Lemma run_init_consistent (evs : list event) : consistent (run evs init).1.
Proof. apply run_consistent, init_consistent. Qed.

Lemma collected_ok_dom (s : Bot) :
  collected_ok s -> dom (go_numbers s) ⊆@{gset string} list_to_set go_input_users.
Proof.
  intros Hc u Hu. apply elem_of_dom in Hu as [v Hv].
  apply elem_of_list_to_set. by apply (Hc u v).
Qed.

(** C10. After any sequence of [!go], [!stopgo], private messages and
    deadline calls from the initial state, the keys of [go_numbers] are
    among [go_input_users] and every stored value lies in 0..7. *)
Theorem collected_within_expected (evs : list event) :
  dom (go_numbers (run evs init).1) ⊆@{gset string} list_to_set go_input_users
  /\ map_Forall (fun _ v => (0 <= v <= 7)%Z) (go_numbers (run evs init).1).
Proof.
  destruct (run_init_consistent evs) as (_ & _ & Hc). split.
  - by apply collected_ok_dom.
  - intros u v Hv. by apply (Hc u v).
Qed.

(** C2. In every state the bot reaches, [handle_go_command] begins a
    session exactly when no tag is set: with none set it takes the lock,
    sets the tag and the timeout, empties [go_numbers], arms the timer
    and announces the start; with one set the lock is held, the try to
    take it fails, the refusal is sent to the channel and no field
    changes. *)
Theorem start_iff_idle (evs : list event) (m : Match) :
  let s := (run evs init).1 in
  let r := handle_go_command m s in
  raised r = None
  /\ match go_active s with
     | None =>
         go_lock s = false
         /\ final r = {| go_lock := true; go_active := Some (group1 m);
                         go_timeout := parse_timeout (group2 m);
                         go_numbers := ∅;
                         go_timer := Some (parse_timeout (group2 m)) |}
         /\ sent r = [Started (group1 m) (parse_timeout (group2 m))]
     | Some _ =>
         go_lock s = true
         /\ final r = s
         /\ sent r = [AlreadyActive (group1 m)]
     end.
Proof.
  intros s r. subst r.
  destruct (run_init_consistent evs) as (Hl & _ & _). fold s in Hl.
  unfold handle_go_command, active in *.
  destruct (go_active s); rewrite Hl; simpl; auto.
Qed.

(** With no call of the timer inside it, [on_privmsg] is the handler
    run whole. *)
Lemma on_privmsg_no_calls (ev : Event) (s : Bot) :
  Threads.on_privmsg {| Threads.in_ack := false; Threads.in_result := false |}
                     ev s
  = on_privmsg ev s.
Proof.
  unfold Threads.on_privmsg, on_privmsg, Threads.callback. simpl.
  destruct (active s && in_users (lower (source_nick ev))); [|reflexivity].
  destruct (isdigit _); [|reflexivity].
  destruct (int _) as [num|]; [|reflexivity].
  destruct ((0 <=? num)%Z && (num <=? 7)%Z); [|reflexivity].
  destruct (_ =? _)%nat; reflexivity.
Qed.

(** The calls of the timer inside [on_privmsg] keep what the whole
    handlers keep: the lock held exactly while a tag is set, a pending
    timer only with a tag, the numbers within the expected users and
    0..7. *)
Lemma threads_on_privmsg_consistent (c : Threads.Calls) (ev : Event)
      (s : Bot) :
  consistent s -> consistent (final (Threads.on_privmsg c ev s)).
Proof.
  intros Hs. unfold Threads.on_privmsg.
  destruct (active s && in_users (lower (source_nick ev))) eqn:Hg;
    [|exact Hs].
  apply andb_true_iff in Hg as [Ha Hu].
  destruct (isdigit _); [|exact Hs].
  destruct (int _) as [num|]; [|exact Hs].
  destruct ((0 <=? num)%Z && (num <=? 7)%Z) eqn:Hr; [|exact Hs].
  apply andb_true_iff in Hr as [H0 H7].
  apply Z.leb_le in H0. apply Z.leb_le in H7.
  assert (consistent
            (set_numbers s (<[lower (source_nick ev):=num]> (go_numbers s))))
    as Hs1.
  { destruct Hs as (Hl & Ht & Hc). split; [exact Hl|]. split; [exact Ht|].
    apply collected_ok_insert; auto using in_users_elem. }
  unfold Threads.callback.
  destruct (Threads.in_ack c && armed _); simpl.
  - apply reset_consistent.
  - destruct (_ =? _)%nat; [|exact Hs1].
    destruct (Threads.in_result c && armed _); apply reset_consistent.
Qed.

(** C1, the failing input. A session with tag 1 is live, its timer
    pending, and player1bot has sent 5. player2bot sends 3 and the
    timer comes due while [_go_complete] is in its call of [privmsg]
    (line 293), before [_reset_go_state] cancels it: [_go_timeout]
    makes no check that the session is live and takes no lock, and the
    one session gets two terminal broadcasts, the result and then a
    time-out. *)
Theorem timer_inside_completion :
  let s := (run [Go {| group1 := G1; group2 := None |};
                 Privmsg {| source_nick := "player1bot";
                            arguments0 := "5" |}] init).1 in
  let r := Threads.on_privmsg
             {| Threads.in_ack := false; Threads.in_result := true |}
             {| source_nick := "player2bot"; arguments0 := "3" |} s in
  active s = true
  /\ armed s = true
  /\ sent r = [Received "player2bot" 3 (Some G1);
               Resulted (Some G1) [5; 3]%Z;
               TimedOut (Some G1) []]
  /\ count_terminal (sent r) = 2
  /\ wire <$> sent r
     = [("player2bot", "number 3 received for !go1.");
        ("##rento", "go1 resulted in 5 + 3");
        ("##rento", "!go1 timed out.")].
Proof. repeat split; vm_compute; reflexivity. Qed.

(** The same defect with the call of the timer after the session has
    completed, from a timer thread that [cancel] came too late to stop:
    a second terminal message for the one start. *)
Example deadline_after_completion :
  let evs := [Go {| group1 := G1; group2 := None |};
              Privmsg {| source_nick := "player1bot"; arguments0 := "5" |};
              Privmsg {| source_nick := "player2bot"; arguments0 := "3" |};
              Deadline] in
  (run evs init).2
  = [Started G1 60;
     Received "player1bot" 5 (Some G1);
     Received "player2bot" 3 (Some G1);
     Resulted (Some G1) [5; 3]%Z;
     TimedOut None ["player1bot"; "player2bot"]]
  /\ count_terminal (run evs init).2 = 2
  /\ wire (TimedOut None ["player1bot"; "player2bot"])
     = ("##rento",
        "!goNone timed out. Missing numbers from: player1bot, player2bot").
Proof. repeat split; reflexivity. Qed.

Lemma go_input_users_NoDup : NoDup go_input_users.
Proof. apply (bool_decide_unpack _). reflexivity. Qed.

Lemma covered_size (m : gmap string Z) :
  dom m ⊆@{gset string} list_to_set go_input_users ->
  Forall (fun u => is_Some (m !! u)) go_input_users ->
  size m = length go_input_users.
Proof.
  intros Hsub Hcov.
  rewrite <- (size_dom (D := gset string)).
  assert (dom m = list_to_set go_input_users) as ->.
  { apply set_eq. intros u. split; [apply Hsub|].
    intros Hu. apply elem_of_list_to_set in Hu. apply elem_of_dom.
    rewrite Forall_forall in Hcov. by apply Hcov. }
  apply size_list_to_set, go_input_users_NoDup.
Qed.

(** The handler run whole, with no call of the timer inside it: in
    every state the bot reaches by whole handlers, an accepted private
    message after which [go_numbers] holds a number for every expected
    user is acknowledged, one result is broadcast, listing for the
    expected users in their fixed order the number held (0 for a user
    without one), and the fields are reset. *)
Lemma completes_when_covered (evs : list event) (ev : Event) (n : Z) :
  let s := (run evs init).1 in
  let sender := lower (source_nick ev) in
  let message := lower (strip (arguments0 ev)) in
  let collected := <[sender := n]> (go_numbers s) in
  active s = true ->
  sender ∈ go_input_users ->
  isdigit message = true ->
  int message = Some n ->
  (0 <= n <= 7)%Z ->
  Forall (fun u => is_Some (collected !! u)) go_input_users ->
  on_privmsg ev s
  = {| final := {| go_lock := false; go_active := None;
                   go_timeout := go_timeout s; go_numbers := ∅;
                   go_timer := None |};
       sent := [Received sender n (go_active s);
                Resulted (go_active s)
                  (map (fun u => default 0%Z (collected !! u)) go_input_users)];
       raised := None |}.
Proof.
  intros s sender message collected Ha Hu Hd Hi Hn Hcov.
  destruct (run_init_consistent evs) as (_ & _ & Hc). fold s in Hc.
  assert (size collected = length go_input_users) as Hsize.
  { apply covered_size; [|exact Hcov].
    apply (collected_ok_dom (set_numbers s collected)).
    by apply collected_ok_insert. }
  unfold on_privmsg. fold sender message. rewrite Ha, Hd, Hi.
  unfold in_users. rewrite (bool_decide_eq_true_2 _ Hu). simpl.
  destruct Hn as [H0 H7].
  apply Z.leb_le in H0. apply Z.leb_le in H7. rewrite H0, H7. simpl.
  fold collected. rewrite Hsize. simpl.
  unfold _reset_go_state; simpl. destruct (go_lock s); reflexivity.
Qed.

(** C4, the failing input. A session with tag 1 is live, its timer
    pending, and player1bot has sent 5. player2bot sends 3, which is
    accepted and gives every expected user a number; the timer comes
    due while [on_privmsg] is in its call of [privmsg] for the
    acknowledgment (line 202). [_go_timeout] empties [go_numbers], the
    test of line 203 then fails, and the call returns with no result
    sent: the session ends by a time-out that names nobody. *)
Theorem timer_inside_acknowledgment :
  let s := (run [Go {| group1 := G1; group2 := None |};
                 Privmsg {| source_nick := "player1bot";
                            arguments0 := "5" |}] init).1 in
  let ev := {| source_nick := "player2bot"; arguments0 := "3" |} in
  let r := Threads.on_privmsg
             {| Threads.in_ack := true; Threads.in_result := false |} ev s in
  active s = true
  /\ armed s = true
  /\ bool_decide
       (Forall (fun u => is_Some (<["player2bot" := 3%Z]> (go_numbers s) !! u))
               go_input_users) = true
  /\ sent r = [Received "player2bot" 3 (Some G1); TimedOut (Some G1) []]
  /\ wire <$> sent r
     = [("player2bot", "number 3 received for !go1.");
        ("##rento", "!go1 timed out.")]
  /\ final r = {| go_lock := false; go_active := None; go_timeout := 60;
                  go_numbers := ∅; go_timer := None |}.
Proof. repeat split; vm_compute; reflexivity. Qed.

(** C5 (as stated) fails: a number sent while no session is live, and
    a number sent by somebody who is not an expected user, get no
    reply. *)
Example submission_without_reply :
  on_privmsg {| source_nick := "player1bot"; arguments0 := "5" |} init
  = returns init []
  /\ on_privmsg {| source_nick := "stranger"; arguments0 := "5" |}
       (final (handle_go_command {| group1 := G1; group2 := None |} init))
     = returns
         (final (handle_go_command {| group1 := G1; group2 := None |} init))
         [].
Proof. split; vm_compute; reflexivity. Qed.

(** C5 (as amended). A private message that arrives while no tag is
    set, or from a nick that is not an expected user, is ignored by
    [on_privmsg]: nothing is sent, no field changes and the call
    returns. *)
Theorem submission_ignored (ev : Event) (s : Bot) :
  active s = false \/ lower (source_nick ev) ∉ go_input_users ->
  on_privmsg ev s = returns s [].
Proof.
  intros H. unfold on_privmsg.
  destruct H as [Ha|Hu].
  - by rewrite Ha.
  - unfold in_users. rewrite (bool_decide_eq_false_2 _ Hu).
    by rewrite andb_false_r.
Qed.

Lemma submission_ignored_witness :
  on_privmsg {| source_nick := "player1bot"; arguments0 := "5" |} init
  = returns init [].
Proof.
  apply (submission_ignored
           {| source_nick := "player1bot"; arguments0 := "5" |} init).
  left. reflexivity.
Defined.

(** C3, the failing input. While a session is live the expected user
    player1bot sends the one character U+00B2 (superscript two):
    [isdigit] accepts it, [int] raises [ValueError], and the call ends
    with nothing sent and no field changed. *)
Theorem superscript_digit_raises :
  let s := final (handle_go_command {| group1 := G2; group2 := None |} init) in
  let ev := {| source_nick := "player1bot";
               arguments0 := String (ascii_of_N 178) EmptyString |} in
  active s = true
  /\ in_users (lower (source_nick ev)) = true
  /\ on_privmsg ev s = {| final := s; sent := []; raised := Some ValueError |}.
Proof. repeat split; vm_compute; reflexivity. Qed.

(** What [on_privmsg] does with a message of an expected user while a
    tag is set, for each way the checks on the message can go. *)
Lemma on_privmsg_expected (ev : Event) (s : Bot) :
  let sender := lower (source_nick ev) in
  let message := lower (strip (arguments0 ev)) in
  active s = true -> sender ∈ go_input_users ->
  on_privmsg ev s
  = if isdigit message then
      match int message with
      | None => {| final := s; sent := []; raised := Some ValueError |}
      | Some num =>
          if bool_decide (0 <= num <= 7)%Z then
            let s1 := set_numbers s (<[sender := num]> (go_numbers s)) in
            if bool_decide (size (go_numbers s1) = length go_input_users) then
              {| final := _reset_go_state s1;
                 sent := [Received sender num (go_active s);
                          Resulted (go_active s)
                                   (reported_numbers (go_numbers s1))];
                 raised := None |}
            else returns s1 [Received sender num (go_active s)]
          else returns s [OutOfRange sender]
      end
    else returns s [NotNumber sender].
Proof.
  intros sender message Ha Hu. unfold on_privmsg. fold sender message.
  unfold in_users. rewrite Ha, (bool_decide_eq_true_2 _ Hu). simpl.
  destruct (isdigit message); [|reflexivity].
  destruct (int message) as [num|]; [|reflexivity].
  destruct (decide (0 <= num <= 7)%Z) as [Hr|Hr].
  - rewrite (bool_decide_eq_true_2 _ Hr). destruct Hr as [H0 H7].
    apply Z.leb_le in H0. apply Z.leb_le in H7. rewrite H0, H7. simpl.
    destruct (decide (size (<[sender:=num]> (go_numbers s)) = 2)) as [Hz|Hz].
    + rewrite (bool_decide_eq_true_2 _ Hz).
      apply Nat.eqb_eq in Hz. rewrite Hz. reflexivity.
    + rewrite (bool_decide_eq_false_2 _ Hz).
      apply Nat.eqb_neq in Hz. rewrite Hz. reflexivity.
  - rewrite (bool_decide_eq_false_2 _ Hr).
    destruct (0 <=? num)%Z eqn:H0; destruct (num <=? 7)%Z eqn:H7;
      try reflexivity.
    apply Z.leb_le in H0. apply Z.leb_le in H7. lia.
Qed.

(** Away from the digits outside ASCII, every message of an expected
    user while a tag is set is answered to its sender first, and the
    call returns. *)
Lemma ascii_message_answered (ev : Event) (s : Bot) :
  let sender := lower (source_nick ev) in
  let message := lower (strip (arguments0 ev)) in
  active s = true -> sender ∈ go_input_users -> isascii message = true ->
  raised (on_privmsg ev s) = None
  /\ exists reply rest,
       sent (on_privmsg ev s) = reply :: rest /\ (wire reply).1 = sender.
Proof.
  intros sender message Ha Hu Hascii.
  rewrite (on_privmsg_expected ev s Ha Hu). fold sender message.
  destruct (isdigit message) eqn:Hd.
  - destruct (isdigit_ascii_int message Hascii Hd) as (n & -> & _).
    destruct (bool_decide (0 <= n <= 7)%Z); simpl.
    + destruct (bool_decide _); simpl; split; try reflexivity;
        eexists _, _; split; reflexivity.
    + split; [reflexivity|]. eexists _, _; split; reflexivity.
  - split; [reflexivity|]. eexists _, _; split; reflexivity.
Qed.

(** The walk through of one session: start, a number, a number out of
    range, a number in range, result. *)
Example session_completes :
  wire <$> (run [Go {| group1 := G2; group2 := None |};
                 Privmsg {| source_nick := "player1bot"; arguments0 := "5" |};
                 Privmsg {| source_nick := "player2bot"; arguments0 := "9" |};
                 Privmsg {| source_nick := "player2bot"; arguments0 := "3" |}]
                init).2
  = [("##rento", "!go2 started. Waiting for numbers from player1bot, player2bot. Timeout: 60s");
     ("player1bot", "number 5 received for !go2.");
     ("player2bot", "number must be 0-7.");
     ("player2bot", "number 3 received for !go2.");
     ("##rento", "go2 resulted in 5 + 3")].
Proof. vm_compute. reflexivity. Qed.

(** A session that times out with nobody heard, and the next start. *)
Example session_times_out :
  wire <$> (run [Go {| group1 := G1; group2 := Some "1" |};
                 Deadline;
                 Go {| group1 := G1; group2 := None |}]
                init).2
  = [("##rento", "!go1 started. Waiting for numbers from player1bot, player2bot. Timeout: 1s");
     ("##rento", "!go1 timed out. Missing numbers from: player1bot, player2bot");
     ("##rento", "!go1 started. Waiting for numbers from player1bot, player2bot. Timeout: 60s")].
Proof. vm_compute. reflexivity. Qed.

End RendezvousFacts.

(** ** The queue *)

Section UpdateQueueFacts.

Import UpdateQueue.

Lemma pass_normal (e : Env) (t : Task) : (pass e t).2 = Normal.
Proof. unfold pass. destruct (try_block e t) as [calls []]; reflexivity. Qed.

(** No exception leaves the loop body: every turn of the worker leads
    to the next. *)
Lemma work_total (e : Env) (s : Sys) : is_Some (work e s).
Proof.
  unfold work. destruct (queue s) as [|t rest]; [by eexists|].
  pose proof (pass_normal e t) as H.
  destruct (pass e t) as [calls o]. simpl in H. subst o. by eexists.
Qed.

Lemma work_cons (e : Env) (t : Task) (rest : list Task)
      (tr : list (Task * list effect)) :
  work e {| queue := t :: rest; trace := tr |}
  = Some {| queue := rest; trace := (tr ++ [(t, (pass e t).1)])%list |}.
Proof.
  unfold work. simpl. pose proof (pass_normal e t) as H.
  destruct (pass e t) as [calls o]. simpl in *. by subst o.
Qed.

Lemma work_fifo (e : Env) (s s' : Sys) :
  work e s = Some s' ->
  (map fst (trace s') ++ queue s')%list = (map fst (trace s) ++ queue s)%list.
Proof.
  destruct s as [q tr]. destruct q as [|t rest].
  - unfold work; simpl. by intros [= <-].
  - rewrite work_cons. intros [= <-]. simpl.
    rewrite map_app. simpl. by rewrite <- app_assoc.
Qed.

Lemma exec_app (a b : list op) (s : Sys) :
  exec (a ++ b) s
  = match exec a s with Some s' => exec b s' | None => None end.
Proof.
  revert s. induction a as [|o a IH]; intros s; simpl; [reflexivity|].
  destruct o as [t|e]; [apply IH|].
  destruct (work e s); [apply IH|reflexivity].
Qed.

Lemma exec_fifo (ops : list op) (s : Sys) :
  exists s', exec ops s = Some s'
    /\ (map fst (trace s') ++ queue s')%list
       = (map fst (trace s) ++ queue s ++ puts ops)%list.
Proof.
  revert s. induction ops as [|o ops IH]; intros s; simpl.
  - exists s. by rewrite app_nil_r.
  - destruct o as [t|e].
    + destruct (IH (put t s)) as (s' & He & Hf). exists s'.
      split; [exact He|]. rewrite Hf. simpl. by rewrite <- app_assoc.
    + destruct (work_total e s) as [s1 Hw]. rewrite Hw.
      destruct (IH s1) as (s' & He & Hf). exists s'.
      split; [exact He|]. rewrite Hf.
      by rewrite app_assoc, (work_fifo e s s1 Hw), <- app_assoc.
Qed.



Lemma exec_puts (later : list Task) (s : Sys) :
  exec (map Put later) s
  = Some {| queue := (queue s ++ later)%list; trace := trace s |}.
Proof.
  revert s. induction later as [|t later IH]; intros s; simpl.
  - rewrite app_nil_r. by destruct s.
  - rewrite IH. simpl. by rewrite <- app_assoc.
Qed.

Lemma exec_drain_trace (envs : list Env) (s : Sys) :
  length envs = length (queue s) ->
  exists s', exec (map Work envs) s = Some s'
    /\ queue s' = []
    /\ trace s'
       = (trace s
          ++ zip_with (fun t e => (t, (pass e t).1)) (queue s) envs)%list.
Proof.
  revert s. induction envs as [|e envs IH]; intros [q tr] Hlen; simpl in *.
  - destruct q; [|discriminate]. eexists. split; [reflexivity|].
    split; [reflexivity|]. by rewrite app_nil_r.
  - destruct q as [|t rest]; [discriminate|]. rewrite work_cons.
    destruct (IH {| queue := rest;
                    trace := (tr ++ [(t, (pass e t).1)])%list |})
      as (s' & He & Hq & Ht); [simpl in *; lia|].
    exists s'. split; [exact He|]. split; [exact Hq|].
    rewrite Ht. simpl. by rewrite <- app_assoc.
Qed.

Lemma zip_passes_tasks (l : list Task) (envs : list Env) :
  length envs = length l ->
  map fst (zip_with (fun t e => (t, (pass e t).1)) l envs) = l.
Proof.
  revert envs. induction l as [|t l IH]; intros [|e envs] Hlen;
    try discriminate; [reflexivity|].
  simpl. f_equal. apply IH. simpl in Hlen. lia.
Qed.

(** A [try] block that raises does so in the call its task asks for. *)
Lemma try_block_raise (e : Env) (t : Task) :
  (try_block e t).2 = Raise -> (try_block e t).1 = [asked_call t].
Proof.
  unfold try_block, asked_call.
  destruct (String.eqb (coord t) "REPLACE_MAP"); [reflexivity|].
  destruct (run_raises e); [reflexivity|].
  destruct (connected e); discriminate.
Qed.

(** Every pass makes the call its task asks for first and [task_done]
    last, with at most the notification or the error print between. *)
Lemma pass_calls (e : Env) (t : Task) :
  exists more,
    (pass e t).1 = (asked_call t :: more ++ [TaskDone])%list
    /\ (more = [] \/ more = [Up] \/ more = [PrintError]).
Proof.
  unfold pass, try_block, asked_call.
  destruct (String.eqb (coord t) "REPLACE_MAP").
  - destruct (move_raises e); simpl.
    + exists [PrintError]. auto.
    + exists []. auto.
  - destruct (run_raises e); simpl.
    + exists [PrintError]. auto.
    + destruct (connected e); simpl.
      * exists [Up]. auto.
      * exists []. auto.
Qed.

(** C7. When the [try] block of a task raises, the worker prints the
    error and marks the task done, the task leaves the queue, and the
    loop goes on. Given a turn for each of them, the tasks behind it
    and those put later are then all taken, in order, the failed one
    not again, and for each of them the worker makes the call the task
    asks for, the move of the new map or the drawing command, and
    marks it done. *)
Theorem failed_task_consumed (e : Env) (t : Task) (rest later : list Task)
      (envs : list Env) (tr : list (Task * list effect)) :
  (try_block e t).2 = Raise ->
  length envs = length (rest ++ later)%list ->
  let s1 := {| queue := rest;
               trace := (tr ++ [(t, [asked_call t; PrintError;
                                     TaskDone])])%list |} in
  work e {| queue := t :: rest; trace := tr |} = Some s1
  /\ (exists s', exec (map Put later ++ map Work envs) s1 = Some s'
        /\ queue s' = []
        /\ map fst (trace s') = (map fst tr ++ t :: rest ++ later)%list
        /\ trace s'
           = (trace s1
              ++ zip_with (fun t' e' => (t', (pass e' t').1))
                          (rest ++ later) envs)%list)
  /\ (forall t' e',
        exists more,
          (pass e' t').1 = (asked_call t' :: more ++ [TaskDone])%list
          /\ (more = [] \/ more = [Up] \/ more = [PrintError])).
Proof.
  intros Hr Hlen s1. split; [|split].
  - rewrite work_cons. unfold s1, pass.
    pose proof (try_block_raise e t Hr) as Hc.
    destruct (try_block e t) as [calls o]. simpl in *. by subst o calls.
  - rewrite exec_app, exec_puts.
    destruct (exec_drain_trace envs {| queue := (queue s1 ++ later)%list;
                                       trace := trace s1 |})
      as (s' & He & Hq & Ht); [exact Hlen|].
    exists s'. split; [exact He|]. split; [exact Hq|]. split; [|exact Ht].
    rewrite Ht. simpl. rewrite !map_app. simpl.
    rewrite <- app_assoc. simpl. do 2 f_equal.
    by apply zip_passes_tasks.
  - intros t' e'. apply pass_calls.
Qed.

Lemma failed_task_consumed_witness :
  let e := {| move_raises := false; run_raises := true; connected := true |} in
  let ok := {| move_raises := false; run_raises := false; connected := true |} in
  let t := {| coord := "745,1136 755,1146"; color := "red" |} in
  let t2 := {| coord := "REPLACE_MAP"; color := "map_temp.webp" |} in
  let t3 := {| coord := "620,1140 630,1150"; color := "blue" |} in
  work e {| queue := [t; t2]; trace := [] |}
  = Some {| queue := [t2];
            trace := [(t, [Mogrify (mogrify_command t); PrintError;
                           TaskDone])] |}
  /\ exists s',
       exec [Put t3; Work ok; Work ok]
            {| queue := [t2];
               trace := [(t, [Mogrify (mogrify_command t); PrintError;
                              TaskDone])] |}
       = Some s'
       /\ queue s' = []
       /\ trace s'
          = [(t, [Mogrify (mogrify_command t); PrintError; TaskDone]);
             (t2, [Move "map_temp.webp" "map.webp"; TaskDone]);
             (t3, [Mogrify (mogrify_command t3); Up; TaskDone])].
Proof.
  intros e ok t t2 t3.
  destruct (failed_task_consumed e t [t2] [t3] [ok; ok] [] eq_refl eq_refl)
    as (Hw & (s' & He & Hq & _ & Ht) & _).
  split; [exact Hw|]. exists s'. split; [exact He|]. split; [exact Hq|].
  rewrite Ht. reflexivity.
Defined.

(** C9 (as stated) fails: a draw task whose [subprocess.run] returns
    while the bot is not connected sends no [!up]. *)
Example draw_without_notification :
  let e := {| move_raises := false; run_raises := false; connected := false |} in
  let t := {| coord := "745,1136 755,1146"; color := "red" |} in
  pass e t = ([Mogrify (mogrify_command t); TaskDone], Normal)
  /\ Up ∉ (pass e t).1.
Proof.
  split; [reflexivity|]. simpl. intros H.
  repeat (apply elem_of_cons in H as [H|H]; [discriminate|]).
  by apply elem_of_nil in H.
Qed.

(** C9 (as amended). After a draw task whose [subprocess.run] returns,
    [!up] is sent to rentobot when the bot is connected, right after
    the drawing command; when it is not connected nothing is sent. *)
Theorem draw_notifies_when_connected (e : Env) (t : Task) :
  coord t <> "REPLACE_MAP" ->
  run_raises e = false ->
  pass e t
  = (if connected e
     then [Mogrify (mogrify_command t); Up; TaskDone]
     else [Mogrify (mogrify_command t); TaskDone], Normal).
Proof.
  intros Hc Hr. unfold pass, try_block.
  apply String.eqb_neq in Hc. rewrite Hc, Hr.
  destruct (connected e); reflexivity.
Qed.

Lemma draw_notifies_when_connected_witness :
  let e := {| move_raises := false; run_raises := false; connected := true |} in
  let t := {| coord := "745,1136 755,1146"; color := "red" |} in
  pass e t = ([Mogrify (mogrify_command t); Up; TaskDone], Normal).
Proof.
  intros e t. apply (draw_notifies_when_connected e t).
  - discriminate.
  - reflexivity.
Defined.

End UpdateQueueFacts.

(** ** The reconnect loop *)

Section ReconnectFacts.

Import Reconnect.

Lemma record_nil (s : State) : record [] s = s.
Proof. destruct s as [a l]. unfold record; simpl. by rewrite app_nil_r. Qed.

Lemma record_record (es1 es2 : list entry) (s : State) :
  record es2 (record es1 s) = record (es1 ++ es2) s.
Proof. unfold record; simpl. by rewrite app_assoc. Qed.

(** The loop, read off the passes it meets: it sleeps after each pass
    that failed, and returns at the first pass that did not. *)
Lemma loop_spec (base_wait : Z) (env : list Pass) (k : Z) (s : State) :
  loop base_wait k env s
  = let n := length (failures env) in
    let s1 := record (failure_log base_wait k n) s in
    match drop n env with
    | [] => (s1, Running (k + Z.of_nat n))
    | p :: _ =>
        if live p then (clear s1, Exited AlreadyConnected)
        else (clear (record [Attempt (k + Z.of_nat n)] s1), Exited Connected)
    end.
Proof.
  revert k s. induction env as [|p rest IH]; intros k s.
  - simpl. by rewrite record_nil, Z.add_0_r.
  - simpl. unfold failed. destruct (live p) eqn:Hl; simpl.
    + by rewrite Hl, record_nil.
    + destruct (outcome p) eqn:Ho; simpl.
      * by rewrite Hl, record_nil, Z.add_0_r.
      * rewrite IH. cbv zeta. rewrite record_record. simpl.
        replace (k + 1 + Z.of_nat (length (failures rest)))%Z
          with (k + Z.pos (Pos.of_succ_nat (length (failures rest))))%Z
          by lia.
        reflexivity.
      * rewrite IH. cbv zeta. rewrite record_record. simpl.
        replace (k + 1 + Z.of_nat (length (failures rest)))%Z
          with (k + Z.pos (Pos.of_succ_nat (length (failures rest))))%Z
          by lia.
        reflexivity.
Qed.

Lemma wait_time_capped (k : Z) : (5 <= k)%Z -> wait_time 60 k = 300%Z.
Proof. intros H. unfold wait_time. lia. Qed.

(** C8. [_reconnect_loop] numbers its passes from 1. Each failed pass
    [k] is followed by a sleep of [min(60*k, 300)] seconds (60, 120,
    180, 240, 300, 300, ...) and by pass [k+1]; nothing else changes the
    counter. After failed passes only, the loop is still running and
    [reconnect_active] is as it was; the loop returns only at the first
    pass that finds the connection live or that connects and joins,
    and it then leaves [reconnect_active] false. *)
Theorem reconnect_backoff (env : list Pass) (s : State) :
  let n := length (failures env) in
  let r := _reconnect_loop 60 env s in
  match drop n env with
  | [] =>
      r.2 = Running (1 + Z.of_nat n)
      /\ reconnect_active r.1 = reconnect_active s
      /\ log r.1 = (log s ++ failure_log 60 1 n)%list
  | p :: _ =>
      reconnect_active r.1 = false
      /\ (if live p
          then r.2 = Exited AlreadyConnected
               /\ log r.1 = (log s ++ failure_log 60 1 n)%list
          else outcome p = Joined
               /\ r.2 = Exited Connected
               /\ log r.1 = (log s ++ failure_log 60 1 n
                             ++ [Attempt (1 + Z.of_nat n)])%list)
  end
  /\ map (wait_time 60) [1; 2; 3; 4; 5; 6]%Z = [60; 120; 180; 240; 300; 300]%Z
  /\ forall k, (wait_time 60 k = Z.min (60 * k) 300)
               /\ ((5 <= k)%Z -> wait_time 60 k = 300%Z).
Proof.
  cbv zeta. unfold _reconnect_loop. rewrite loop_spec. cbv zeta.
  split; [|split; [reflexivity|]].
  - destruct (drop (length (failures env)) env) as [|p rest] eqn:Hd.
    + simpl. auto.
    + destruct (live p) eqn:Hl; simpl.
      * auto.
      * split; [reflexivity|]. split; [|split; [reflexivity|]].
        -- (* the pass at which the loop returned did not fail *)
           clear s. revert Hd Hl. induction env as [|q env IH]; simpl.
           ++ discriminate.
           ++ destruct (failed q) eqn:Hf; simpl.
              ** exact IH.
              ** intros [= -> _] Hl. unfold failed in Hf. rewrite Hl in Hf.
                 simpl in Hf. by destruct (outcome p).
        -- by rewrite <- app_assoc.
  - intros k. split; [reflexivity|apply wait_time_capped].
Qed.

(** The first six failed passes of a loop that then connects. *)
Example reconnect_six_failures :
  let bad := {| live := false; outcome := ConnectRaises |} in
  let good := {| live := false; outcome := Joined |} in
  _reconnect_loop 60 [bad; bad; bad; bad; bad; bad; good]
                  {| reconnect_active := true; log := [] |}
  = ({| reconnect_active := false;
        log := [Attempt 1; Sleep 60; Attempt 2; Sleep 120; Attempt 3;
                Sleep 180; Attempt 4; Sleep 240; Attempt 5; Sleep 300;
                Attempt 6; Sleep 300; Attempt 7] |},
     Exited Connected).
Proof. reflexivity. Qed.

End ReconnectFacts.

(** ** Public messages *)

Section RouterFacts.

Import Text Rendezvous UpdateQueue Router.

Lemma run_world_cons (i : input) (rest : list input) (w : World) :
  run_world (i :: rest) w
  = ((run_world rest (step i w).1).1,
     ((step i w).2 ++ (run_world rest (step i w).1).2)%list).
Proof.
  simpl. destruct (step i w) as [w1 out1]. simpl.
  destruct (run_world rest w1); reflexivity.
Qed.

Lemma table_colour (m : gmap string string) (player : string) :
  map_Forall (fun _ c => c ∈ palette) m ->
  default "red" (m !! player) ∈ palette.
Proof.
  intros Hm. destruct (m !! player) as [c|] eqn:Hc; simpl.
  - by apply (Hm player c).
  - apply (bool_decide_unpack _). vm_compute. exact I.
Qed.

Lemma unmortgaged_in_palette :
  map_Forall (fun _ c => c ∈ palette) unmortgaged_colors.
Proof. apply (bool_decide_unpack _). vm_compute. exact I. Qed.

Lemma mortgaged_in_palette :
  map_Forall (fun _ c => c ∈ palette) mortgaged_colors.
Proof. apply (bool_decide_unpack _). vm_compute. exact I. Qed.

Lemma coordinates_not_replace :
  map_Forall (fun _ c => c <> "REPLACE_MAP") coordinates.
Proof. apply (bool_decide_unpack _). vm_compute. exact I. Qed.

Lemma roll_dice_sys (e : Env) (p : Z) (pool1 pool2 : list Z) (name : string)
      (w : World) :
  sys (roll_dice e p pool1 pool2 name w).1 = sys w
  /\ bot (roll_dice e p pool1 pool2 name w).1 = bot w.
Proof. unfold roll_dice. by destruct (_ && _). Qed.

Lemma dice_loop_sys (e : Env) (msg : string) (w : World)
      (r : World * list message) :
  dice_loop dice_commands e msg w = Some r ->
  sys r.1 = sys w /\ bot r.1 = bot w.
Proof.
  unfold dice_commands. simpl.
  repeat (destruct (match_dice _ msg);
          [intros [= <-]; apply roll_dice_sys|]).
  discriminate.
Qed.

(** An update command leaves the queue as it is or puts one circle
    from the tables at its end. *)
Lemma update_command_puts (msg : string) (w : World) :
  update_command msg w = w
  \/ exists number place colour,
       coordinates !! number = Some place /\ colour ∈ palette
       /\ update_command msg w
          = enqueue {| coord := place; color := colour |} w.
Proof.
  unfold update_command.
  destruct (split msg) as [|first_word [|player [|third [|fourth rest]]]];
    auto.
  destruct (int_literal fourth) as [number|]; auto.
  destruct (negb _); auto.
  destruct (coordinates !! number) as [place|] eqn:Hplace; auto.
  right. exists number, place. eexists. split; [exact Hplace|].
  split; [|reflexivity].
  destruct (bool_decide _).
  - apply table_colour, unmortgaged_in_palette.
  - apply table_colour, mortgaged_in_palette.
Qed.

(** What a public message does to the queue. *)
Lemma on_pubmsg_puts (e : Env) (a : string) (w : World) :
  sys (on_pubmsg e a w).1 = sys w
  \/ sys (on_pubmsg e a w).1
     = put {| coord := "REPLACE_MAP"; color := temp_path |} (sys w)
  \/ exists number place colour,
       coordinates !! number = Some place /\ colour ∈ palette
       /\ sys (on_pubmsg e a w).1
          = put {| coord := place; color := colour |} (sys w).
Proof.
  unfold on_pubmsg. destruct (match_go _); [by left|].
  destruct (startswith "!stopgo" _); [by left|].
  destruct (startswith "!freshmap" _).
  { destruct (copy_raises e); [by left|]. right. by left. }
  destruct (dice_loop _ _ _ _) as [r|] eqn:Hd.
  { left. by apply (dice_loop_sys _ _ _ _ Hd). }
  simpl.
  destruct (update_command_puts (lower (strip a)) w)
    as [->|(number & place & colour & Hp & Hc & ->)]; [by left|].
  right. right. by exists number, place, colour.
Qed.

Lemma task_ok_table (number : Z) (place colour : string) :
  coordinates !! number = Some place -> colour ∈ palette ->
  task_ok {| coord := place; color := colour |}.
Proof.
  intros Hp Hc. right. simpl. split.
  - by apply (coordinates_not_replace number place).
  - split; [by exists number|exact Hc].
Qed.

Lemma tasks_put (t : Task) (w : World) (s' : Sys) :
  s' = put t (sys w) ->
  (map fst (trace s') ++ queue s')%list = (tasks w ++ [t])%list.
Proof. intros ->. unfold tasks, put. simpl. by rewrite app_assoc. Qed.

Lemma step_sys (i : input) (w : World) :
  sys (step i w).1 = sys w
  \/ (exists t, task_ok t /\ sys (step i w).1 = put t (sys w))
  \/ (exists e, work e (sys w) = Some (sys (step i w).1)).
Proof.
  destruct i as [e a|ev| |e]; simpl; auto.
  - destruct (on_pubmsg_puts e a w)
      as [H|[H|(number & place & colour & Hp & Hc & H)]]; auto.
    + right. left. eexists. split; [|exact H]. by left.
    + right. left. eexists. split; [|exact H].
      by apply (task_ok_table number).
  - destruct (work e (sys w)) as [s'|] eqn:Hw; simpl; auto.
    right. right. exists e. exact Hw.
Qed.

Lemma step_tasks_ok (i : input) (w : World) :
  Forall task_ok (tasks w) -> Forall task_ok (tasks (step i w).1).
Proof.
  intros Hw. unfold tasks at 1.
  destruct (step_sys i w) as [->|[(t & Ht & Hs)|(e & He)]].
  - exact Hw.
  - rewrite (tasks_put t w _ Hs). apply Forall_app. split; [exact Hw|].
    by apply Forall_singleton.
  - by rewrite (work_fifo e _ _ He).
Qed.

Lemma run_world_tasks_ok (ins : list input) (w : World) :
  Forall task_ok (tasks w) -> Forall task_ok (tasks (run_world ins w).1).
Proof.
  revert w. induction ins as [|i rest IH]; intros w Hw; [exact Hw|].
  rewrite run_world_cons. simpl. by apply IH, step_tasks_ok.
Qed.

(** X1. Whatever public and private messages arrive, in any order with
    the timer and the worker's turns, every task the queue holds or the
    worker has taken is the replacement of the map by the temporary
    copy, or a circle whose place is an entry of [coordinates] and
    whose colour is one of the eight of the colour tables: no text of a
    message is ever queued. *)
Theorem queued_tasks_from_tables (ins : list input) :
  Forall task_ok (tasks (run_world ins init_world).1).
Proof. apply run_world_tasks_ok. constructor. Qed.

Lemma pass_effects_ok (e : UpdateQueue.Env) (t : Task) :
  task_ok t -> Forall effect_ok (pass e t).1.
Proof.
  intros [->|(Hne & (number & Hp) & Hc)].
  - unfold pass, try_block. simpl. destruct (move_raises e); simpl;
      repeat constructor.
  - assert (effect_ok (Mogrify (mogrify_command t))) as Hm.
    { exists number, (coord t), (color t).
      split; [exact Hp|]. split; [exact Hc|]. by destruct t. }
    unfold pass, try_block. apply String.eqb_neq in Hne. rewrite Hne.
    destruct (run_raises e); [|destruct (connected e)]; simpl;
      repeat (constructor; [first [exact Hm|exact I]|]); constructor.
Qed.

Lemma step_effects_ok (i : input) (w : World) :
  Forall task_ok (tasks w) ->
  Forall effect_ok (effect_log (sys w)) ->
  Forall effect_ok (effect_log (sys (step i w).1)).
Proof.
  intros Ht Hw.
  destruct (step_sys i w) as [->|[(t & _ & ->)|(e & He)]]; try exact Hw.
  revert He. generalize (sys (step i w).1). intros s' He.
  unfold tasks in Ht. destruct (sys w) as [q tr]. destruct q as [|t rest].
  - unfold work in He. simpl in He. by inversion He.
  - rewrite work_cons in He. inversion He; subst s'. clear He.
    unfold effect_log in *. simpl in *.
    rewrite map_app, concat_app. apply Forall_app. split; [exact Hw|].
    simpl. rewrite app_nil_r. apply pass_effects_ok.
    apply Forall_app in Ht as [_ Ht]. by inversion Ht.
Qed.

Lemma run_world_effects_ok (ins : list input) (w : World) :
  Forall task_ok (tasks w) ->
  Forall effect_ok (effect_log (sys w)) ->
  Forall effect_ok (effect_log (sys (run_world ins w).1)).
Proof.
  revert w. induction ins as [|i rest IH]; intros w Ht Hw; [exact Hw|].
  rewrite run_world_cons. simpl.
  apply IH; [by apply step_tasks_ok|by apply step_effects_ok].
Qed.

(** X2. Every shell command the worker ever runs is the [mogrify]
    command of a place of [coordinates] and a colour of the colour
    tables, and every file it moves is the temporary copy, moved onto
    the map: what chat users write never reaches the shell or a file
    name. *)
Theorem worker_calls_from_tables (ins : list input) :
  Forall effect_ok (effect_log (sys (run_world ins init_world).1)).
Proof. apply run_world_effects_ok; constructor. Qed.

(** X3. A public message puts at most one task on the queue, at its
    end, and takes none off: the tasks queued before are still there,
    in order, and the worker's history is untouched. *)
Theorem pubmsg_appends_at_most_one (e : Env) (a : string) (w : World) :
  exists new,
    queue (sys (on_pubmsg e a w).1) = (queue (sys w) ++ new)%list
    /\ length new <= 1
    /\ trace (sys (on_pubmsg e a w).1) = trace (sys w).
Proof.
  destruct (on_pubmsg_puts e a w)
    as [->|[->|(number & place & colour & _ & _ & ->)]].
  - exists []. rewrite app_nil_r. simpl. repeat split; lia.
  - eexists [_]. simpl. repeat split; lia.
  - eexists [_]. simpl. repeat split; lia.
Qed.

Lemma not_in_go (m : message) (l : list notice) :
  (forall n, m <> Go n) -> m ∉ map Go l.
Proof.
  intros Hm Hin. apply list_elem_of_fmap in Hin as (n & -> & _).
  by apply (Hm n).
Qed.

Lemma one_to_four_range (c : ascii) (p : Z) :
  one_to_four c = Some p -> (1 <= p <= 4)%Z.
Proof.
  unfold one_to_four. destruct (_ && _) eqn:Hc; [|discriminate].
  intros [= <-]. apply andb_true_iff in Hc as [Hlo Hhi].
  apply N.leb_le in Hlo. apply N.leb_le in Hhi. unfold digit_value. lia.
Qed.

Lemma match_dice_range (name msg : string) (p : Z) :
  match_dice name msg = Some p -> (1 <= p <= 4)%Z.
Proof.
  unfold match_dice. destruct (after _ msg) as [[|c r]|]; try discriminate.
  apply one_to_four_range.
Qed.

Lemma roll_dice_in_range (e : Env) (p : Z) (pool1 pool2 : list Z)
      (name : string) (w : World) :
  (1 <= p <= 4)%Z ->
  roll_dice e p pool1 pool2 name w
  = ({| bot := bot w; sys := sys w;
        dice_rolls := <[p := (choice (pick1 e) pool1,
                               choice (pick2 e) pool2)]> (dice_rolls w) |},
     [Rolled name p (choice (pick1 e) pool1) (choice (pick2 e) pool2)]).
Proof.
  intros [Hlo Hhi]. unfold roll_dice, num_players.
  apply Z.leb_le in Hlo. apply Z.leb_le in Hhi. by rewrite Hlo, Hhi.
Qed.

Lemma choice_Forall (P : Z -> Prop) (i : nat) (pool : list Z) :
  pool <> [] -> Forall P pool -> P (choice i pool).
Proof.
  intros Hne Hall. unfold choice.
  rewrite Forall_forall in Hall. apply Hall. apply list_elem_of_In.
  apply nth_In. apply Nat.mod_upper_bound. by destruct pool.
Qed.

(** The dice loop, when a name matches: which die was rolled, for
    whom, from which pools. *)
Lemma dice_loop_rolls (e : Env) (msg : string) (w : World)
      (r : World * list message) :
  dice_loop dice_commands e msg w = Some r ->
  exists name p pool1 pool2,
    (1 <= p <= 4)%Z
    /\ r = roll_dice e p pool1 pool2 name w
    /\ (name, pool1, pool2)
       ∈ [("dice1", [1; 1; 2; 2; 3; 3], [1; 1; 2; 2; 3; 3]);
          ("dice2", [1; 1; 2; 2; 3; 3], [4; 4; 5; 5; 6; 6]);
          ("dice3", [4; 4; 5; 5; 6; 6], [4; 4; 5; 5; 6; 6]);
          ("dice4", [1; 2; 3; 4; 5; 6], [1; 2; 3; 4; 5; 6])]%Z.
Proof.
  unfold dice_commands. simpl.
  destruct (match_dice "dice1" msg) as [p|] eqn:H1.
  { intros [= <-]. eexists _, p, _, _.
    split; [by apply (match_dice_range _ _ _ H1)|].
    split; [reflexivity|]. apply list_elem_of_here. }
  destruct (match_dice "dice2" msg) as [p|] eqn:H2.
  { intros [= <-]. eexists _, p, _, _.
    split; [by apply (match_dice_range _ _ _ H2)|].
    split; [reflexivity|]. apply list_elem_of_further, list_elem_of_here. }
  destruct (match_dice "dice3" msg) as [p|] eqn:H3.
  { intros [= <-]. eexists _, p, _, _.
    split; [by apply (match_dice_range _ _ _ H3)|].
    split; [reflexivity|].
    do 2 apply list_elem_of_further. apply list_elem_of_here. }
  destruct (match_dice "dice4" msg) as [p|] eqn:H4; [|discriminate].
  intros [= <-]. eexists _, p, _, _.
  split; [by apply (match_dice_range _ _ _ H4)|].
  split; [reflexivity|].
  do 3 apply list_elem_of_further. apply list_elem_of_here.
Qed.

(** What a public message sends: the messages of [handle_go_command] or
    of [handle_stopgo], one about the fresh map, one roll, or nothing. *)
Lemma on_pubmsg_sends (e : Env) (a : string) (w : World) :
  (exists m, match_go (lower (strip a)) = Some m
     /\ on_pubmsg e a w = with_bot w (handle_go_command m (bot w)))
  \/ on_pubmsg e a w = with_bot w (handle_stopgo (bot w))
  \/ (on_pubmsg e a w).2 = [FreshQueued]
  \/ (exists err, (on_pubmsg e a w).2 = [FreshError err])
  \/ (exists r, dice_loop dice_commands e (lower (strip a)) w = Some r
        /\ on_pubmsg e a w = r)
  \/ (on_pubmsg e a w).2 = [].
Proof.
  unfold on_pubmsg. destruct (match_go _) as [m|]; [left; by exists m|].
  destruct (startswith "!stopgo" _); [right; by left|].
  destruct (startswith "!freshmap" _).
  { destruct (copy_raises e) as [err|].
    - do 3 right. left. by exists err.
    - do 2 right. by left. }
  destruct (dice_loop _ _ _ _) as [r|].
  - do 4 right. left. by exists r.
  - do 5 right. reflexivity.
Qed.

(** X4. A roll announced for a public message is for a player from 1 to
    4, is stored in [dice_rolls] for that player, and lies within the
    pools of its die: 1..3 and 1..3 for dice1, 1..3 and 4..6 for dice2,
    4..6 and 4..6 for dice3, 1..6 and 1..6 for dice4. *)
Theorem dice_within_pools (e : Env) (a : string) (w : World)
      (name : string) (p x y : Z) :
  Rolled name p x y ∈ (on_pubmsg e a w).2 ->
  (1 <= p <= 4)%Z
  /\ dice_rolls (on_pubmsg e a w).1 !! p = Some (x, y)
  /\ ((name = "dice1" /\ 1 <= x <= 3 /\ 1 <= y <= 3)
      \/ (name = "dice2" /\ 1 <= x <= 3 /\ 4 <= y <= 6)
      \/ (name = "dice3" /\ 4 <= x <= 6 /\ 4 <= y <= 6)
      \/ (name = "dice4" /\ 1 <= x <= 6 /\ 1 <= y <= 6))%Z.
Proof.
  intros Hin.
  destruct (on_pubmsg_sends e a w)
    as [(m & _ & H)|[H|[H|[(err & H)|[(r & Hd & H)|H]]]]].
  - rewrite H in Hin. by apply not_in_go in Hin.
  - rewrite H in Hin. by apply not_in_go in Hin.
  - rewrite H in Hin. apply list_elem_of_singleton in Hin. discriminate.
  - rewrite H in Hin. apply list_elem_of_singleton in Hin. discriminate.
  - rewrite H in Hin |- *.
    destruct (dice_loop_rolls _ _ _ _ Hd)
      as (name' & p' & pool1 & pool2 & Hp & -> & Hspec).
    rewrite (roll_dice_in_range _ _ _ _ _ _ Hp) in Hin |- *. simpl in *.
    apply list_elem_of_singleton in Hin. injection Hin as -> -> -> ->.
    split; [exact Hp|]. split; [apply lookup_insert_eq|].
    repeat (apply elem_of_cons in Hspec as [Hspec|Hspec]);
      [| | | |by apply elem_of_nil in Hspec];
      injection Hspec as -> -> ->.
    + left. split; [reflexivity|].
      split; apply choice_Forall; try discriminate;
        repeat constructor; lia.
    + right. left. split; [reflexivity|].
      split; apply choice_Forall; try discriminate;
        repeat constructor; lia.
    + do 2 right. left. split; [reflexivity|].
      split; apply choice_Forall; try discriminate;
        repeat constructor; lia.
    + do 3 right. split; [reflexivity|].
      split; apply choice_Forall; try discriminate;
        repeat constructor; lia.
  - rewrite H in Hin. by apply elem_of_nil in Hin.
Qed.

Lemma dice_within_pools_witness :
  let e := {| copy_raises := None; pick1 := 7; pick2 := 3 |} in
  (1 <= 3 <= 4)%Z
  /\ dice_rolls (on_pubmsg e "  !Dice2-P3 " init_world).1 !! 3%Z
     = Some (1, 5)%Z.
Proof.
  intros e.
  destruct (dice_within_pools e "  !Dice2-P3 " init_world "dice2" 3 1 5)
    as (Hp & Hroll & _).
  - vm_compute. apply list_elem_of_here.
  - split; [exact Hp|exact Hroll].
Defined.

Lemma step_sends (i : input) (w : World) (m : message) :
  m ∈ (step i w).2 ->
  (exists n, m = Go n) \/ m = FreshQueued \/ (exists err, m = FreshError err)
  \/ exists name p x y, m = Rolled name p x y.
Proof.
  destruct i as [e a|ev| |e]; simpl.
  - intros Hin.
    destruct (on_pubmsg_sends e a w)
      as [(g & _ & H)|[H|[H|[(err & H)|[(r & Hd & H)|H]]]]];
      rewrite H in Hin; simpl in Hin.
    + apply list_elem_of_fmap in Hin as (n & -> & _). left. by exists n.
    + apply list_elem_of_fmap in Hin as (n & -> & _). left. by exists n.
    + apply list_elem_of_singleton in Hin. auto.
    + apply list_elem_of_singleton in Hin. right. right. left. by exists err.
    + destruct (dice_loop_rolls _ _ _ _ Hd)
        as (name & p & pool1 & pool2 & Hp & -> & _).
      rewrite (roll_dice_in_range _ _ _ _ _ _ Hp) in Hin. simpl in Hin.
      apply list_elem_of_singleton in Hin. do 3 right. by eexists _, _, _, _.
    + by apply elem_of_nil in Hin.
  - intros Hin. apply list_elem_of_fmap in Hin as (n & -> & _).
    left. by exists n.
  - intros Hin. apply list_elem_of_singleton in Hin. left. by eexists.
  - destruct (work e (sys w)); simpl; intros Hin; by apply elem_of_nil in Hin.
Qed.

(** X5. The bot never sends "Invalid player number": the pattern of the
    dice commands lets through the players 1 to 4 only, which
    [roll_dice] accepts. *)
Theorem never_invalid_player (ins : list input) (w : World) :
  InvalidPlayer ∉ (run_world ins w).2.
Proof.
  revert w. induction ins as [|i rest IH]; intros w.
  - apply not_elem_of_nil.
  - rewrite run_world_cons. simpl. intros Hin.
    apply elem_of_app in Hin as [Hin|Hin]; [|by apply (IH _ Hin)].
    destruct (step_sends i w _ Hin)
      as [(n & H)|[H|[(err & H)|(name & p & x & y & H)]]]; discriminate.
Qed.

Lemma span_all (f : ascii -> bool) (s : string) :
  all_chars f (span f s).1 = true.
Proof.
  induction s as [|c r IH]; simpl; [reflexivity|].
  destruct (f c) eqn:Hc; [|reflexivity].
  destruct (span f r) as [x y]. simpl in *. by rewrite Hc, IH.
Qed.

(** The timeout of a matched [!go]: absent, or decimal digits, at
    least one. *)
Lemma match_go_group2 (msg : string) (m : Match) :
  match_go msg = Some m ->
  match group2 m with
  | None => True
  | Some ds => ds <> EmptyString /\ all_chars isdecimal_char ds = true
  end.
Proof.
  unfold match_go. destruct (after "!go" msg) as [[|c r]|]; try discriminate.
  destruct (go_num_of c); [|discriminate].
  destruct (span isspace_char r) as [ws r1].
  pose proof (span_all isdecimal_char r1) as Hd.
  destruct (span isdecimal_char r1) as [ds r2]. simpl in Hd.
  intros [= <-]. simpl. destruct ws; [exact I|]. destruct ds; [exact I|].
  split; [discriminate|exact Hd].
Qed.

Lemma match_go_timeout (msg : string) (m : Match) :
  match_go msg = Some m -> (0 <= parse_timeout (group2 m))%Z.
Proof.
  intros Hm. apply match_go_group2 in Hm. unfold parse_timeout.
  destruct (group2 m) as [ds|]; [|lia]. destruct Hm as [Hne Hd].
  destruct ds as [|c r]; [lia|].
  destruct (int_from_decimal (String c r) 0 Hd) as (n & Hn & Hpos); [lia|].
  unfold int. rewrite Hn. exact Hpos.
Qed.

Lemma after_split (p s r : string) : after p s = Some r -> s = p ++ r.
Proof.
  revert s. induction p as [|a p IH]; intros [|b s]; simpl;
    try discriminate; try (by intros [= <-]).
  destruct (Ascii.eqb a b) eqn:Hab; [|discriminate].
  apply Ascii.eqb_eq in Hab as ->. intros H. by rewrite (IH s H).
Qed.

(** [span] cuts its text where the run ends. *)
Lemma span_split (f : ascii -> bool) (s : string) :
  s = (span f s).1 ++ (span f s).2
  /\ match (span f s).2 with
     | String c _ => f c = false
     | EmptyString => True
     end.
Proof.
  induction s as [|c r [IH1 IH2]]; simpl; [by split|].
  destruct (f c) eqn:Hc; simpl; [|by split].
  destruct (span f r) as [x y]. simpl in *.
  split; [by subst r|exact IH2].
Qed.

(** The run [span] finds is the only one that ends there. *)
Lemma span_app (f : ascii -> bool) (a b : string) :
  all_chars f a = true ->
  match b with String c _ => f c = false | EmptyString => True end ->
  span f (a ++ b) = (a, b).
Proof.
  intros Ha Hb. induction a as [|c a IH].
  - change (EmptyString ++ b) with b.
    destruct b as [|c r]; [reflexivity|]. simpl. by rewrite Hb.
  - change (String c a ++ b) with (String c (a ++ b)). simpl in *.
    apply andb_true_iff in Ha as [Hc Ha]. by rewrite Hc, (IH Ha).
Qed.

Lemma go_num_of_str (c : ascii) (g : GoNum) :
  go_num_of c = Some g -> String c EmptyString = go_num_str g.
Proof.
  destruct c as [[] [] [] [] [] [] [] []]; try discriminate;
    intros [= <-]; reflexivity.
Qed.

Lemma decimal_not_space (c : ascii) :
  isdecimal_char c = true -> isspace_char c = false.
Proof.
  destruct c as [[] [] [] [] [] [] [] []]; try discriminate; reflexivity.
Qed.

(** What a matched [!go] says about the message: it begins with [!go]
    and the digit of the tag, and the timeout is the run of digits that
    follows a run of white space there, if there is one. *)
Lemma match_go_message (msg : string) (m : Match) :
  match_go msg = Some m ->
  exists tail,
    msg = "!go" ++ go_num_str (group1 m) ++ tail
    /\ match group2 m with
       | Some ds =>
           exists ws rest,
             tail = ws ++ ds ++ rest
             /\ ws <> EmptyString /\ all_chars isspace_char ws = true
             /\ ds <> EmptyString /\ all_chars isdecimal_char ds = true
             /\ decimal_head rest = false
       | None =>
           forall ws d rest,
             ws <> EmptyString -> all_chars isspace_char ws = true ->
             isdecimal_char d = true -> tail <> ws ++ String d rest
       end.
Proof.
  unfold match_go. destruct (after "!go" msg) as [[|c r]|] eqn:Ha;
    try discriminate.
  apply after_split in Ha. destruct (go_num_of c) as [g|] eqn:Hg;
    [|discriminate].
  apply go_num_of_str in Hg.
  pose proof (span_split isspace_char r) as [Hr _].
  pose proof (span_all isspace_char r) as Hws.
  destruct (span isspace_char r) as [ws r1] eqn:Hspan.
  cbn [fst snd] in Hr, Hws.
  pose proof (span_split isdecimal_char r1) as [Hr1 Hrest].
  pose proof (span_all isdecimal_char r1) as Hds.
  destruct (span isdecimal_char r1) as [ds r2] eqn:Hspan1.
  cbn [fst snd] in Hr1, Hrest, Hds.
  intros [= <-]. cbn [group1 group2]. exists r. split.
  { rewrite Ha, <- Hg. reflexivity. }
  destruct ws as [|w ws'].
  - intros ws0 d rest Hne Hsp Hd Htail. rewrite Htail in Hspan.
    rewrite (span_app isspace_char ws0 (String d rest) Hsp
               (decimal_not_space d Hd)) in Hspan.
    injection Hspan as Hws0 _. by apply Hne.
  - destruct ds as [|d0 ds'].
    + intros ws0 d rest Hne Hsp Hd Htail. rewrite Htail in Hspan.
      rewrite (span_app isspace_char ws0 (String d rest) Hsp
                 (decimal_not_space d Hd)) in Hspan.
      injection Hspan as _ Hr1'. subst r1. cbn [span] in Hspan1.
      rewrite Hd in Hspan1. destruct (span isdecimal_char rest).
      discriminate.
    + exists (String w ws'), r2. split; [by rewrite Hr, Hr1|].
      split; [discriminate|]. split; [exact Hws|].
      split; [discriminate|]. split; [exact Hds|].
      destruct r2; [reflexivity|exact Hrest].
Qed.

(** X6. A session started by a public message is the one the message
    asks for. The message, in lower case and stripped, begins with
    [!go] and the digit of the tag the session gets; the timeout, the
    timer and the number announced are the value of the run of decimal
    digits that follows a run of white space there, or 60 when no
    digit follows white space there; the timeout is never negative. *)
Theorem started_as_message_says (e : Env) (a : string) (w : World)
      (g : GoNum) (t : Z) :
  Go (Started g t) ∈ (on_pubmsg e a w).2 ->
  (0 <= t)%Z
  /\ go_active (bot (on_pubmsg e a w).1) = Some g
  /\ go_timeout (bot (on_pubmsg e a w).1) = t
  /\ go_timer (bot (on_pubmsg e a w).1) = Some t
  /\ exists tail,
       lower (strip a) = "!go" ++ go_num_str g ++ tail
       /\ ((exists ws ds rest,
              tail = ws ++ ds ++ rest
              /\ ws <> EmptyString /\ all_chars isspace_char ws = true
              /\ ds <> EmptyString /\ all_chars isdecimal_char ds = true
              /\ decimal_head rest = false
              /\ int ds = Some t)
           \/ (t = 60%Z
               /\ forall ws d rest,
                    ws <> EmptyString -> all_chars isspace_char ws = true ->
                    isdecimal_char d = true ->
                    tail <> ws ++ String d rest)).
Proof.
  intros Hin.
  destruct (on_pubmsg_sends e a w)
    as [(m & Hm & H)|[H|[H|[(err & H)|[(r & Hd & H)|H]]]]].
  - rewrite H in Hin |- *. unfold with_bot, handle_go_command in *.
    destruct (go_lock (bot w)); simpl in *;
      apply list_elem_of_singleton in Hin; [discriminate|].
    injection Hin as -> ->.
    split; [by apply (match_go_timeout (lower (strip a)))|].
    do 3 (split; [reflexivity|]).
    destruct (match_go_message _ _ Hm) as (tail & Hmsg & Hgiven).
    exists tail. split; [exact Hmsg|]. unfold parse_timeout.
    destruct (group2 m) as [ds|].
    + left. destruct Hgiven as (ws & rest & Ht & Hws & Hsp & Hne & Hdec & Hr).
      exists ws, ds, rest. do 6 (split; [assumption|]).
      destruct ds as [|c ds']; [by destruct Hne|].
      destruct (int_from_decimal (String c ds') 0 Hdec) as (n & Hn & _);
        [lia|].
      unfold int. by rewrite Hn.
    + right. by split.
  - rewrite H in Hin. unfold with_bot, handle_stopgo in Hin.
    destruct (go_active (bot w)); simpl in Hin;
      apply list_elem_of_singleton in Hin; discriminate.
  - rewrite H in Hin. apply list_elem_of_singleton in Hin. discriminate.
  - rewrite H in Hin. apply list_elem_of_singleton in Hin. discriminate.
  - rewrite H in Hin.
    destruct (dice_loop_rolls _ _ _ _ Hd)
      as (name & p & pool1 & pool2 & Hp & -> & _).
    rewrite (roll_dice_in_range _ _ _ _ _ _ Hp) in Hin. simpl in Hin.
    apply list_elem_of_singleton in Hin. discriminate.
  - rewrite H in Hin. by apply elem_of_nil in Hin.
Qed.

Lemma started_as_message_says_witness :
  let e := {| copy_raises := None; pick1 := 0; pick2 := 0 |} in
  (0 <= 15)%Z
  /\ go_active (bot (on_pubmsg e "  !GO2   15 seconds" init_world).1)
     = Some G2
  /\ go_timer (bot (on_pubmsg e "  !GO2   15 seconds" init_world).1)
     = Some 15%Z
  /\ exists tail,
       lower (strip "  !GO2   15 seconds") = "!go" ++ go_num_str G2 ++ tail.
Proof.
  intros e.
  destruct (started_as_message_says
              e "  !GO2   15 seconds" init_world G2 15)
    as (Hpos & Hg & _ & Htimer & tail & Hmsg & _).
  - vm_compute. apply list_elem_of_here.
  - split; [exact Hpos|]. split; [exact Hg|]. split; [exact Htimer|].
    exists tail. exact Hmsg.
Defined.

Lemma lower_char_idem (c : ascii) : lower_char (lower_char c) = lower_char c.
Proof. destruct c as [[] [] [] [] [] [] [] []]; reflexivity. Qed.

Lemma isspace_lower_char (c : ascii) :
  isspace_char (lower_char c) = isspace_char c.
Proof. destruct c as [[] [] [] [] [] [] [] []]; reflexivity. Qed.

Lemma lower_idem (s : string) : lower (lower s) = lower s.
Proof.
  induction s as [|c r IH]; simpl; [reflexivity|].
  by rewrite lower_char_idem, IH.
Qed.

Lemma lstrip_lower (s : string) : lstrip (lower s) = lower (lstrip s).
Proof.
  induction s as [|c r IH]; simpl; [reflexivity|].
  rewrite isspace_lower_char. by destruct (isspace_char c).
Qed.

Lemma rstrip_lower (s : string) : rstrip (lower s) = lower (rstrip s).
Proof.
  induction s as [|c r IH]; simpl; [reflexivity|].
  rewrite IH, isspace_lower_char.
  destruct (rstrip r); simpl; [|reflexivity].
  by destruct (isspace_char c).
Qed.

Lemma rstrip_idem (s : string) : rstrip (rstrip s) = rstrip s.
Proof.
  induction s as [|c r IH]; simpl; [reflexivity|].
  destruct (rstrip r) as [|c' r'] eqn:Hr.
  - destruct (isspace_char c) eqn:Hc; simpl; [reflexivity|]. by rewrite Hc.
  - simpl in *. rewrite IH. reflexivity.
Qed.

Lemma lstrip_rstrip_lstrip (s : string) :
  lstrip (rstrip (lstrip s)) = rstrip (lstrip s).
Proof.
  induction s as [|c r IH]; simpl; [reflexivity|].
  destruct (isspace_char c) eqn:Hc; [exact IH|]. simpl.
  destruct (rstrip r); rewrite ?Hc; simpl; by rewrite Hc.
Qed.

Lemma strip_idem (s : string) : strip (strip s) = strip s.
Proof. unfold strip. by rewrite lstrip_rstrip_lstrip, rstrip_idem. Qed.

(** Lower case and stripped once is lower case and stripped. *)
Lemma normal_idem (s : string) :
  lower (strip (lower (strip s))) = lower (strip s).
Proof.
  unfold strip at 1. rewrite lstrip_lower, rstrip_lower, lower_idem.
  change (rstrip (lstrip (strip s))) with (strip (strip s)).
  by rewrite strip_idem.
Qed.

(** X7. The bot reads messages without regard to case and to white
    space around them: a public message does what its stripped lower
    case form does, and so does a private message, whose sender's nick
    is likewise read in lower case. *)
Theorem messages_read_normalised (e : Env) (a : string) (w : World)
      (ev : Event) (s : Bot) :
  on_pubmsg e a w = on_pubmsg e (lower (strip a)) w
  /\ on_privmsg ev s
     = on_privmsg {| source_nick := lower (source_nick ev);
                     arguments0 := lower (strip (arguments0 ev)) |} s.
Proof.
  split.
  - unfold on_pubmsg. by rewrite normal_idem.
  - unfold on_privmsg. simpl. by rewrite normal_idem, lower_idem.
Qed.

End RouterFacts.

(** ** The rendezvous, further *)

Section RendezvousMore.

Import Text Rendezvous.

Lemma users_size : size (list_to_set go_input_users : gset string) = 2.
Proof. apply (size_list_to_set go_input_users), go_input_users_NoDup. Qed.

Lemma full_size_covers (m : gmap string Z) :
  dom m ⊆@{gset string} list_to_set go_input_users -> size m = 2 ->
  Forall (fun u => is_Some (m !! u)) go_input_users.
Proof.
  intros Hsub Hsize.
  assert (dom m = list_to_set go_input_users) as Hdom.
  { apply set_subseteq_size_eq; [exact Hsub|].
    rewrite users_size, size_dom. lia. }
  apply Forall_forall. intros u Hu. apply elem_of_dom. rewrite Hdom.
  by apply elem_of_list_to_set.
Qed.

Lemma insert_dom_users (s : Bot) (u : string) (n : Z) :
  collected_ok s -> u ∈ go_input_users -> (0 <= n <= 7)%Z ->
  dom (<[u := n]> (go_numbers s)) ⊆@{gset string} list_to_set go_input_users.
Proof.
  intros Hc Hu Hn.
  exact (collected_ok_dom (set_numbers s (<[u := n]> (go_numbers s)))
           (collected_ok_insert s u n Hc Hu Hn)).
Qed.

(** X9. In every state the bot reaches, an accepted number after which
    some expected user still has none is stored for its sender and
    acknowledged to them, and nothing else happens: the session stays
    live, with the same tag and timer, and no result is sent. *)
Theorem uncovered_submission_waits (evs : list event) (ev : Event) (n : Z) :
  let s := (run evs init).1 in
  let sender := lower (source_nick ev) in
  let message := lower (strip (arguments0 ev)) in
  let collected := <[sender := n]> (go_numbers s) in
  active s = true ->
  sender ∈ go_input_users ->
  isdigit message = true ->
  int message = Some n ->
  (0 <= n <= 7)%Z ->
  ~ Forall (fun u => is_Some (collected !! u)) go_input_users ->
  on_privmsg ev s
  = returns {| go_lock := go_lock s; go_active := go_active s;
               go_timeout := go_timeout s; go_numbers := collected;
               go_timer := go_timer s |}
            [Received sender n (go_active s)].
Proof.
  intros s sender message collected Ha Hu Hd Hi Hn Hcov.
  destruct (run_init_consistent evs) as (_ & _ & Hc). fold s in Hc.
  rewrite (on_privmsg_expected ev s Ha Hu). fold sender message.
  rewrite Hd, Hi, (bool_decide_eq_true_2 _ Hn). cbv zeta. simpl.
  fold collected. rewrite bool_decide_eq_false_2; [reflexivity|].
  intros Hsize. apply Hcov. apply full_size_covers; [|exact Hsize].
  by apply (insert_dom_users s).
Qed.

Lemma uncovered_submission_waits_witness :
  let evs := [Go {| group1 := G2; group2 := None |};
              Privmsg {| source_nick := "player1bot"; arguments0 := "5" |}] in
  let ev := {| source_nick := "player1bot"; arguments0 := "7" |} in
  wire <$> sent (on_privmsg ev (run evs init).1)
  = [("player1bot", "number 7 received for !go2.")].
Proof.
  intros evs ev.
  rewrite (uncovered_submission_waits evs ev 7%Z).
  - vm_compute. reflexivity.
  - vm_compute. reflexivity.
  - apply (bool_decide_unpack _). vm_compute. exact I.
  - vm_compute. reflexivity.
  - vm_compute. reflexivity.
  - lia.
  - apply (bool_decide_unpack _). vm_compute. exact I.
Defined.

(** X10. In every state the bot reaches, after [!stopgo], and after a
    call of the timer, the next [!go] starts a session: neither leaves
    the lock held. *)
Theorem start_after_stop_or_timeout (evs : list event) (m : Match) :
  let s := (run evs init).1 in
  sent (handle_go_command m (final (handle_stopgo s)))
  = [Started (group1 m) (parse_timeout (group2 m))]
  /\ sent (handle_go_command m (final (_go_timeout s)))
     = [Started (group1 m) (parse_timeout (group2 m))].
Proof.
  intros s. destruct (run_init_consistent evs) as (Hl & _ & _). fold s in Hl.
  split.
  - unfold handle_stopgo, active in *.
    destruct (go_active s); simpl.
    + unfold handle_go_command. simpl. by destruct (go_lock s).
    + unfold handle_go_command. by rewrite Hl.
  - unfold handle_go_command. simpl. by destruct (go_lock s).
Qed.

End RendezvousMore.

(** ** The queue's bookkeeping and the reconnect threads *)

Section BookkeepingFacts.

Import UpdateQueue Router Reconnect Supervisor.

Lemma done_count_app (l1 l2 : list effect) :
  done_count (l1 ++ l2) = done_count l1 + done_count l2.
Proof. unfold done_count. by rewrite List.filter_app, length_app. Qed.

Lemma pass_done_once (e : UpdateQueue.Env) (t : Task) :
  done_count (pass e t).1 = 1.
Proof.
  unfold pass, try_block.
  destruct (String.eqb (coord t) "REPLACE_MAP").
  - destruct (move_raises e); reflexivity.
  - destruct (run_raises e); [reflexivity|].
    destruct (connected e); reflexivity.
Qed.

Lemma work_done_count (e : UpdateQueue.Env) (s s' : Sys) :
  work e s = Some s' ->
  done_count (effect_log s) = length (trace s) ->
  done_count (effect_log s') = length (trace s').
Proof.
  destruct s as [q tr]. destruct q as [|t rest].
  - unfold work. simpl. by intros [= <-].
  - rewrite work_cons. intros [= <-] H. unfold effect_log in *. simpl in *.
    rewrite map_app, concat_app, done_count_app, length_app, H. simpl.
    by rewrite app_nil_r, pass_done_once.
Qed.

Lemma exec_done_count (ops : list op) (s s' : Sys) :
  exec ops s = Some s' ->
  done_count (effect_log s) = length (trace s) ->
  done_count (effect_log s') = length (trace s').
Proof.
  revert s. induction ops as [|o ops IH]; intros s; simpl.
  - by intros [= <-].
  - destruct o as [t|e].
    + intros He H. by apply (IH (put t s)).
    + destruct (work e s) as [s1|] eqn:Hw; [|discriminate].
      intros He H. apply (IH s1 He). by apply (work_done_count e s).
Qed.

(** X11. Whatever the order of the [put]s and the worker's turns, and
    whether or not tasks fail, [task_done] has been called once for
    each task the worker took: the tasks put are as many as the calls
    of [task_done] and the tasks still queued together. *)
Theorem task_done_once_per_task (ops : list op) :
  exists s, exec ops start = Some s
    /\ done_count (effect_log s) = length (trace s)
    /\ length (puts ops) = done_count (effect_log s) + length (queue s).
Proof.
  destruct (exec_fifo ops start) as (s & He & Hf). simpl in Hf.
  exists s. split; [exact He|].
  assert (done_count (effect_log s) = length (trace s)) as Hd
    by (by apply (exec_done_count ops start s He)).
  split; [exact Hd|].
  rewrite <- Hf, length_app, length_map, Hd. reflexivity.
Qed.

Lemma sup_step_single (ev : sup_event) (s : Sup) :
  (threads s = [] /\ reconnect_active (state s) = false)
  \/ (exists k, threads s = [k] /\ reconnect_active (state s) = true) ->
  (threads (sup_step ev s) = []
   /\ reconnect_active (state (sup_step ev s)) = false)
  \/ (exists k, threads (sup_step ev s) = [k]
        /\ reconnect_active (state (sup_step ev s)) = true).
Proof.
  intros [[Ht Ha]|(k & Ht & Ha)]; destruct ev as [|i p]; simpl.
  - unfold on_disconnect. rewrite Ha, Ht. right. by exists 1%Z.
  - rewrite Ht. simpl. by left.
  - unfold on_disconnect. rewrite Ha, Ht. simpl. right. by exists k.
  - rewrite Ht. destruct i as [|i]; simpl; [|right; by exists k].
    destruct (live p); simpl; [by left|].
    destruct (outcome p); simpl; [by left| |];
      right; exists (k + 1)%Z; by split.
Qed.

Lemma sup_run_single (evs : list sup_event) (s : Sup) :
  (threads s = [] /\ reconnect_active (state s) = false)
  \/ (exists k, threads s = [k] /\ reconnect_active (state s) = true) ->
  (threads (sup_run evs s) = []
   /\ reconnect_active (state (sup_run evs s)) = false)
  \/ (exists k, threads (sup_run evs s) = [k]
        /\ reconnect_active (state (sup_run evs s)) = true).
Proof.
  revert s. induction evs as [|ev evs IH]; intros s Hs; [exact Hs|].
  simpl. apply IH. by apply sup_step_single.
Qed.

(** X12. However disconnections and the passes of the reconnect loop
    follow one another, at most one thread runs [_reconnect_loop]: a
    disconnection while one runs starts no other, and
    [reconnect_active] is set exactly while one runs. *)
Theorem single_reconnect_loop (evs : list sup_event) :
  (threads (sup_run evs init_sup) = []
   /\ reconnect_active (state (sup_run evs init_sup)) = false)
  \/ (exists k, threads (sup_run evs init_sup) = [k]
        /\ reconnect_active (state (sup_run evs init_sup)) = true).
Proof. apply sup_run_single. by left. Qed.

End BookkeepingFacts.

(** ** What the messages of a session carry *)

Section SessionMessages.

Import Text Rendezvous UpdateQueue Router.

Lemma reported_in_range (s : Bot) :
  collected_ok s ->
  Forall (fun v => (0 <= v <= 7)%Z) (reported_numbers (go_numbers s)).
Proof.
  intros Hc. unfold reported_numbers. apply Forall_forall. intros v Hv.
  apply list_elem_of_fmap in Hv as (u & -> & _).
  destruct (go_numbers s !! u) as [x|] eqn:Hx; simpl; [|lia].
  by apply (Hc u x).
Qed.

Lemma on_privmsg_result (ev : Event) (s : Bot) (a : option GoNum)
      (nums : list Z) :
  collected_ok s ->
  Resulted a nums ∈ sent (on_privmsg ev s) ->
  is_Some a /\ length nums = length go_input_users
  /\ Forall (fun v => (0 <= v <= 7)%Z) nums.
Proof.
  intros Hc. unfold on_privmsg.
  destruct (active s && in_users (lower (source_nick ev))) eqn:Hg;
    [|intros Hin; by apply elem_of_nil in Hin].
  apply andb_true_iff in Hg as [Ha Hu].
  destruct (isdigit _);
    [|intros Hin; apply list_elem_of_singleton in Hin; discriminate].
  destruct (int _) as [num|]; [|intros Hin; by apply elem_of_nil in Hin].
  destruct ((0 <=? num)%Z && (num <=? 7)%Z) eqn:Hr;
    [|intros Hin; apply list_elem_of_singleton in Hin; discriminate].
  apply andb_true_iff in Hr as [H0 H7].
  apply Z.leb_le in H0. apply Z.leb_le in H7.
  destruct (_ =? _)%nat; simpl; intros Hin.
  - apply elem_of_cons in Hin as [Hin|Hin]; [discriminate|].
    apply list_elem_of_singleton in Hin. injection Hin as -> ->.
    split; [|split].
    + unfold active in Ha. destruct (go_active s); [by eexists|discriminate].
    + unfold reported_numbers. by rewrite length_map.
    + assert (collected_ok
                (set_numbers s
                   (<[lower (source_nick ev):=num]> (go_numbers s)))) as Hc'
        by (apply collected_ok_insert; auto using in_users_elem).
      apply reported_in_range in Hc'. exact Hc'.
  - apply list_elem_of_singleton in Hin. discriminate.
Qed.

Lemma handle_result (e : event) (s : Bot) (a : option GoNum)
      (nums : list Z) :
  collected_ok s ->
  Resulted a nums ∈ sent (handle e s) ->
  is_Some a /\ length nums = length go_input_users
  /\ Forall (fun v => (0 <= v <= 7)%Z) nums.
Proof.
  intros Hc. destruct e as [m| |ev|]; simpl.
  - unfold handle_go_command. destruct (go_lock s); simpl; intros Hin;
      apply list_elem_of_singleton in Hin; discriminate.
  - unfold handle_stopgo. destruct (go_active s); simpl; intros Hin;
      apply list_elem_of_singleton in Hin; discriminate.
  - by apply on_privmsg_result.
  - intros Hin. apply list_elem_of_singleton in Hin. discriminate.
Qed.

Lemma run_result (evs : list event) (s : Bot) (a : option GoNum)
      (nums : list Z) :
  consistent s ->
  Resulted a nums ∈ (run evs s).2 ->
  is_Some a /\ length nums = length go_input_users
  /\ Forall (fun v => (0 <= v <= 7)%Z) nums.
Proof.
  revert s. induction evs as [|e rest IH]; intros s Hc Hin.
  - by apply elem_of_nil in Hin.
  - rewrite run_cons in Hin. simpl in Hin.
    apply elem_of_app in Hin as [Hin|Hin].
    + apply (handle_result e s); [apply Hc|exact Hin].
    + apply (IH (final (handle e s))); [by apply handle_consistent|exact Hin].
Qed.

(** X13. Every result the bot broadcasts names the tag of a session,
    never [None], and lists one number for each expected user, each
    from 0 to 7, whatever the order of commands, numbers and timer
    calls. *)
Theorem result_well_formed (evs : list event) (a : option GoNum)
      (nums : list Z) :
  Resulted a nums ∈ (run evs init).2 ->
  is_Some a
  /\ length nums = length go_input_users
  /\ Forall (fun v => (0 <= v <= 7)%Z) nums.
Proof. apply run_result, init_consistent. Qed.

Lemma result_well_formed_witness :
  is_Some (Some G1) /\ length [5; 3]%Z = length go_input_users.
Proof.
  destruct (result_well_formed
              [Rendezvous.Go {| group1 := G1; group2 := None |};
               Privmsg {| source_nick := "player1bot"; arguments0 := "5" |};
               Privmsg {| source_nick := "player2bot"; arguments0 := "3" |}]
              (Some G1) [5; 3]%Z) as (Ha & Hl & _).
  - vm_compute. do 3 apply list_elem_of_further. apply list_elem_of_here.
  - split; [exact Ha|exact Hl].
Defined.

(** X14. Only [!go] and [!stopgo] messages touch the session: any
    other public message leaves the [!go] fields as they are and
    changes at most one of the queue and the dice rolls, and a [!go] or
    [!stopgo] message changes neither of these two. *)
Theorem pubmsg_one_concern (e : Env) (a : string) (w : World) :
  let w' := (on_pubmsg e a w).1 in
  if bool_decide (is_Some (match_go (lower (strip a))))
     || startswith "!stopgo" (lower (strip a))
  then sys w' = sys w /\ dice_rolls w' = dice_rolls w
  else bot w' = bot w
       /\ (sys w' = sys w \/ dice_rolls w' = dice_rolls w).
Proof.
  cbv zeta. unfold on_pubmsg.
  destruct (match_go (lower (strip a))) as [m|].
  { rewrite bool_decide_eq_true_2 by (by eexists). by split. }
  rewrite bool_decide_eq_false_2 by (by intros [? ?]).
  destruct (startswith "!stopgo" (lower (strip a))); cbn [orb];
    [by split|].
  destruct (startswith "!freshmap" (lower (strip a))).
  { destruct (copy_raises e); cbn [fst bot sys dice_rolls enqueue]; auto. }
  destruct (dice_loop dice_commands e (lower (strip a)) w) as [r|] eqn:Hd.
  { destruct (dice_loop_sys _ _ _ _ Hd) as [Hs Hb]. auto. }
  cbn [fst].
  destruct (update_command_puts (lower (strip a)) w)
    as [->|(number & place & colour & _ & _ & ->)];
    cbn [bot sys dice_rolls enqueue]; auto.
Qed.

End SessionMessages.
